(** * Reflow: depth map and reflow points of the SQL linter

    A shallow embedding of [sqlfluff/utils/reflow/depthmap.py] and
    [sqlfluff/utils/reflow/elements.py], and the properties of the
    ancestor stacks, the constraint resolver, the spacing processor, the
    alignment resolver and the respace entry point. *)

From Stdlib Require Import ZArith Lia Ascii String.
From stdpp Require Import base gmap list strings.

Set Warnings "-register-all,-clear-no-such-hyp".
Set Default Proof Using "Type".

Open Scope string_scope.
Open Scope Z_scope.
Open Scope list_scope.

(** ** Python exceptions and fallible results

    [InvalidReference] stands for a reference to a fix outside the store,
    which no list of fixes of the program holds. *)

Inductive exn :=
| AssertionError
| IndexError
| ValueError
| AttributeError
| NotImplementedError
| InvalidReference.

Inductive Res (A : Type) :=
| Ok (a : A)
| Raise (e : exn).
Arguments Ok {A} a.
Arguments Raise {A} e.

Definition res_bind {A B} (m : Res A) (k : A -> Res B) : Res B :=
  match m with
  | Ok a => k a
  | Raise e => Raise e
  end.

Declare Scope res_scope.
Delimit Scope res_scope with res.
Notation "'let?' x := m 'in' k" := (res_bind m (fun x => k))
  (at level 10, x pattern, m at level 100, k at level 200) : res_scope.
Open Scope res_scope.

(** ** Segments of the parse tree *)

(** The working location of a position marker: line number and column. *)
Record PosMarker := mkPosMarker {
  working_line_no : Z;
  working_line_pos : Z
}.

#[global] Instance PosMarker_eq_dec : EqDecision PosMarker.
Proof. solve_decision. Defined.

Definition working_loc (pm : PosMarker) : Z * Z :=
  (working_line_no pm, working_line_pos pm).

(** A leaf of the tree.  [pos_marker] is [None] for a segment that an
    earlier fix created and that has no position yet. *)
Record RawSegment := mkRawSegment {
  uuid : Z;
  class_types : list string;
  raw : string;
  pos_marker : option PosMarker;
  is_code : bool
}.

#[global] Instance RawSegment_eq_dec : EqDecision RawSegment.
Proof. solve_decision. Defined.

(** [seg.is_type]: one of the given types is among the class types of the
    segment. *)
Definition has_type (cts : list string) (seg_type : list string) : bool :=
  existsb (fun t => bool_decide (t ∈ cts)) seg_type.

Definition is_type (seg : RawSegment) (seg_type : list string) : bool :=
  has_type (class_types seg) seg_type.
Arguments is_type : simpl never.

Inductive BaseSegment :=
| Raw (r : RawSegment)
| Branch (cts : list string) (pm : option PosMarker)
         (segments : list BaseSegment).

Definition seg_class_types (s : BaseSegment) : list string :=
  match s with
  | Raw r => class_types r
  | Branch cts _ _ => cts
  end.

Definition seg_pos_marker (s : BaseSegment) : option PosMarker :=
  match s with
  | Raw r => pos_marker r
  | Branch _ pm _ => pm
  end.

Definition is_branch (s : BaseSegment) : bool :=
  match s with
  | Raw _ => false
  | Branch _ _ _ => true
  end.

(** One step of the path from an ancestor to a leaf: the ancestor, the
    index of the child taken and the number of children. *)
Record PathStep := mkPathStep {
  segment : BaseSegment;
  idx : Z;
  len : Z
}.

(** ** depthmap.py *)

Definition _stack_pos_interpreter (path_step : PathStep) : string :=
  if (idx path_step =? 0) && (idx path_step =? len path_step - 1) then "solo"
  else if idx path_step =? 0 then "start"
  else if idx path_step =? len path_step - 1 then "end"
  else "".

Record DepthInfo := mkDepthInfo {
  stack_depth : Z;
  stack_hashes : list Z;
  stack_hash_set : gset Z;
  stack_class_types : list (list string);
  stack_positions : list string
}.

(** [assert common_hashes] fails on the empty set; the common depth is the
    size of the intersection and the result the slice
    [self.stack_hashes[:common_depth]]. *)
Definition common_with (self other : DepthInfo) : Res (list Z) :=
  let common_hashes := stack_hash_set self ∩ list_to_set (stack_hashes other) in
  if decide (common_hashes = ∅) then Raise AssertionError
  else
    let common_depth := size common_hashes in
    Ok (take common_depth (stack_hashes self)).

Section FromStack.

(** Python's [hash] on a segment; [BaseSegment.__hash__] is not part of
    the two files. *)
Variable hash : BaseSegment -> Z.

Definition from_raw_and_stack (raw : RawSegment) (stack : list PathStep)
  : DepthInfo :=
  let stack_hashes := map (fun ps => hash (segment ps)) stack in
  {| stack_depth := Z.of_nat (length stack);
     stack_hashes := stack_hashes;
     stack_hash_set := list_to_set stack_hashes;
     stack_class_types := map (fun ps => seg_class_types (segment ps)) stack;
     stack_positions := map _stack_pos_interpreter stack |}.

End FromStack.

(** Python slices [l[:k]] and [l[k:]]: a negative [k] counts from the
    end, and an index outside the list is clamped to it. *)
Definition py_slice_to {A} (l : list A) (k : Z) : list A :=
  if k <? 0 then take (Z.to_nat (Z.of_nat (length l) + k)) l
  else take (Z.to_nat k) l.

Definition py_slice_from {A} (l : list A) (k : Z) : list A :=
  if k <? 0 then drop (Z.to_nat (Z.of_nat (length l) + k)) l
  else drop (Z.to_nat k) l.

Definition trim (self : DepthInfo) (amount : Z) : DepthInfo :=
  if amount =? 0 then self
  else
    {| stack_depth := stack_depth self - amount;
       stack_hashes := py_slice_to (stack_hashes self) (- amount);
       stack_hash_set :=
         stack_hash_set self
         ∖ list_to_set (py_slice_from (stack_hashes self) (- amount));
       stack_class_types := py_slice_to (stack_class_types self) (- amount);
       stack_positions := py_slice_to (stack_positions self) (- amount) |}.

(** The error of a lookup in the depth map, with the uuid that is not
    there. *)
Inductive key_error :=
| KeyError (key : Z).

(** The depth map: the dict from the uuid of a leaf to its depth info. *)
Record DepthMap := mkDepthMap {
  depth_infos : gmap Z DepthInfo
}.

Definition get_depth_info (self : DepthMap) (raw : RawSegment)
  : key_error + DepthInfo :=
  match depth_infos self !! uuid raw with
  | Some d => inr d
  | None => inl (KeyError (uuid raw))
  end.

(** [copy_depth_info] changes the map in place: the map after the call is
    returned, or the error of the lookup of the anchor. *)
Definition copy_depth_info (self : DepthMap) (anchor new_segment : RawSegment)
  (amount : Z) : key_error + DepthMap :=
  match get_depth_info self anchor with
  | inr d =>
      inr (mkDepthMap (<[uuid new_segment := trim d amount]> (depth_infos self)))
  | inl e => inl e
  end.

Section BuildDepthMap.

Variable hash : BaseSegment -> Z.

(** [DepthMap.__init__]: a later entry with the uuid of an earlier one
    takes its place. *)
Definition DepthMap_init (raws_with_stack : list (RawSegment * list PathStep))
  : DepthMap :=
  mkDepthMap
    (fold_left
       (fun infos x => <[uuid x.1 := from_raw_and_stack hash x.1 x.2]> infos)
       raws_with_stack ∅).

End BuildDepthMap.

(** ** Leaves with their ancestor paths *)

Definition with_step (ps : PathStep) (x : RawSegment * list PathStep)
  : RawSegment * list PathStep :=
  (x.1, ps :: x.2).

Definition children_paths
  (paths : BaseSegment -> list (RawSegment * list PathStep))
  (parent : BaseSegment) (n : nat)
  : nat -> list BaseSegment -> list (RawSegment * list PathStep) :=
  fix go (i : nat) (kids : list BaseSegment) :=
    match kids with
    | [] => []
    | k :: kids' =>
        map (with_step (mkPathStep parent (Z.of_nat i) (Z.of_nat n))) (paths k)
        ++ go (S i) kids'
    end.

(** Modelled from the spec: [raw_segments_with_ancestors] of the parser's
    segment class, the "leaf enumeration with ancestor paths": every leaf
    below a segment, in order, with the path steps from that segment down
    to the leaf (root first). *)
Fixpoint raw_segments_with_ancestors (s : BaseSegment)
  : list (RawSegment * list PathStep) :=
  match s with
  | Raw r => [(r, [])]
  | Branch _ _ kids =>
      children_paths raw_segments_with_ancestors s (length kids) 0%nat kids
  end.

(** The branch nodes of a tree, each once, parents before children. *)
Fixpoint branches (s : BaseSegment) : list BaseSegment :=
  match s with
  | Raw _ => []
  | Branch _ _ kids => s :: concat (map branches kids)
  end.

(** [DepthMap.from_parent], over the leaves of the parent with their
    paths. *)
Definition from_parent (hash : BaseSegment -> Z) (parent : BaseSegment)
  : DepthMap :=
  DepthMap_init hash (raw_segments_with_ancestors parent).

(** The longest common prefix of two ancestor stacks. *)
Fixpoint shared_prefix (a b : list Z) : list Z :=
  match a, b with
  | x :: a', y :: b' => if decide (x = y) then x :: shared_prefix a' b' else []
  | _, _ => []
  end.

(** A depth info whose cached set is the set of its ordered hashes. *)
Definition consistent (d : DepthInfo) : Prop :=
  stack_hash_set d = list_to_set (stack_hashes d)
  /\ stack_depth d = Z.of_nat (length (stack_hashes d)).

(** ** Python list and string operations used by elements.py *)

(** [l[0]] and [l[-1]], which raise IndexError on an empty list. *)
Definition py_first {A} (l : list A) : Res A :=
  match l with
  | [] => Raise IndexError
  | x :: _ => Ok x
  end.

Definition py_last {A} (l : list A) : Res A :=
  match last l with
  | None => Raise IndexError
  | Some x => Ok x
  end.

(** [l[i]] for an index that is not negative. *)
Definition py_nth {A} (l : list A) (i : nat) : Res A :=
  match l !! i with
  | None => Raise IndexError
  | Some x => Ok x
  end.

(** [" " * n]: empty when [n] is not positive. *)
Definition spaces (n : Z) : string :=
  String.concat "" (replicate (Z.to_nat n) " ").

(** [s.split(":")] *)
Fixpoint split_colon_aux (cur : string) (s : string) : list string :=
  match s with
  | EmptyString => [cur]
  | String c s' =>
      if Ascii.eqb c ":"%char then cur :: split_colon_aux "" s'
      else split_colon_aux (cur +:+ String c EmptyString) s'
  end.

Definition split_colon (s : string) : list string := split_colon_aux "" s.

Definition startswith (s pre : string) : bool := String.prefix pre s.

(** Attribute access on [seg.pos_marker], which is [None] on a segment
    without a position. *)
Definition get_pos_marker (pm : option PosMarker) : Res PosMarker :=
  match pm with
  | Some p => Ok p
  | None => Raise AttributeError
  end.

(** Lexicographic [<] on location tuples. *)
Definition loc_lt (a b : Z * Z) : bool :=
  (a.1 <? b.1) || ((a.1 =? b.1) && (a.2 <? b.2)).

(** ** Blocks, points and fixes *)

Record ReflowBlock := mkReflowBlock {
  block_segments : list RawSegment;
  spacing_before : string;
  spacing_after : string;
  depth_info : DepthInfo;
  stack_spacing_configs : gmap Z string
}.

Record ReflowPoint := mkReflowPoint {
  point_segments : list RawSegment
}.

(** Modelled from the spec: the edit operation [LintFix] of the rule
    engine: one of delete, replace, create_before and create_after, with
    the leaf it is anchored on and, for the last three, the payload. *)
Record LintFix := mkLintFix {
  edit_type : string;
  anchor : RawSegment;
  edit : option (list RawSegment)
}.

Definition LintFix_delete (s : RawSegment) : LintFix :=
  mkLintFix "delete" s None.

(** Modelled from the spec: [WhitespaceSegment()] with its defaults, a
    whitespace leaf holding one space, not code and without a position. *)
Definition WhitespaceSegment (u : Z) : RawSegment :=
  {| uuid := u;
     class_types := ["whitespace"];
     raw := " ";
     pos_marker := None;
     is_code := false |}.

(** [ReflowElement._class_types]: the union of the class types of the
    segments. *)
Definition _class_types (segments : list RawSegment) : gset string :=
  ⋃ (map (fun seg => list_to_set (class_types seg)) segments).

(** What the configuration gives for a block: the three spacing values,
    the last one optional. *)
Record BlockConfig := mkBlockConfig {
  config_spacing_before : string;
  config_spacing_after : string;
  config_spacing_within : option string
}.

(** ** The store of fix objects

    A [LintFix] is a mutable object that the caller's list and the
    returned list share: lists of fixes hold references into a store, and
    a new fix is allocated at its end.  The state also holds the source
    of fresh uuids. *)

Record State := mkState {
  fix_store : list LintFix;
  uuid_source : Z
}.

Definition M (A : Type) : Type := State -> Res (A * State).

Definition ret {A} (a : A) : M A := fun st => Ok (a, st).

Definition bind {A B} (m : M A) (k : A -> M B) : M B :=
  fun st =>
    match m st with
    | Ok (a, st') => k a st'
    | Raise e => Raise e
    end.

Definition lift {A} (r : Res A) : M A :=
  fun st =>
    match r with
    | Ok a => Ok (a, st)
    | Raise e => Raise e
    end.

Definition throw {A} (e : exn) : M A := fun _ => Raise e.

Declare Scope m_scope.
Delimit Scope m_scope with M.
Notation "'let!' x := m 'in' k" := (bind m (fun x => k))
  (at level 10, x pattern, m at level 100, k at level 200) : m_scope.

(** [LintFix(...)]: a new object in the store. *)
Definition new_fix (f : LintFix) : M nat :=
  fun st => Ok (length (fix_store st),
                mkState (fix_store st ++ [f]) (uuid_source st)).

Definition get_fix (ref : nat) : M LintFix :=
  fun st =>
    match fix_store st !! ref with
    | Some f => Ok (f, st)
    | None => Raise InvalidReference
    end.

(** [fix.edit = payload] *)
Definition set_fix_edit (ref : nat) (payload : list RawSegment) : M unit :=
  fun st =>
    match fix_store st !! ref with
    | Some f =>
        Ok (tt, mkState (<[ref := mkLintFix (edit_type f) (anchor f) (Some payload)]>
                           (fix_store st))
                        (uuid_source st))
    | None => Raise InvalidReference
    end.

(** [uuid4()] *)
Definition fresh_uuid : M Z :=
  fun st => Ok (uuid_source st, mkState (fix_store st) (uuid_source st + 1)).

Fixpoint new_fixes_of (l : list LintFix) : M (list nat) :=
  match l with
  | [] => ret []
  | f :: l' =>
      (let! r := new_fix f in
       let! rs := new_fixes_of l' in
       ret (r :: rs))%M
  end.

(** ** The parser's side, for the examples

    The tree queries, the locations, the equality and the hash of segments
    belong to the parser.  The development takes them as parameters; the
    definitions here give one instance, on which the examples run. *)

(** Modelled from the spec: equality of leaves, by their identity. *)
Definition leaf_eq (a b : RawSegment) : bool := uuid a =? uuid b.

(** Modelled from the spec: [raw_segments], the leaves below a segment in
    order. *)
Definition tree_raw_segments (s : BaseSegment) : list RawSegment :=
  map fst (raw_segments_with_ancestors s).

(** Modelled from the spec: [path_to], the path steps from a segment down
    to a leaf, found by the identity of the leaf. *)
Definition tree_path_to (s target : BaseSegment) : list PathStep :=
  match target with
  | Raw r =>
      match List.find (fun x => uuid x.1 =? uuid r)
                      (raw_segments_with_ancestors s) with
      | Some x => x.2
      | None => []
      end
  | Branch _ _ _ => []
  end.

(** Modelled from the spec: [recursive_crawl], the segments of a class
    type at or below a segment, in order. *)
Fixpoint tree_recursive_crawl (s : BaseSegment) (seg_type : string)
  : list BaseSegment :=
  (if has_type (seg_class_types s) [seg_type] then [s] else [])
  ++ match s with
     | Raw _ => []
     | Branch _ _ kids =>
         concat (map (fun k => tree_recursive_crawl k seg_type) kids)
     end.

(** Modelled from the spec: the "location after this leaf's text": a
    newline starts the next line at column 1, any other character moves
    one column on. *)
Fixpoint infer_next_position (raw : string) (line_no line_pos : Z) : Z * Z :=
  match raw with
  | EmptyString => (line_no, line_pos)
  | String c raw' =>
      if Ascii.eqb c "010"%char then infer_next_position raw' (line_no + 1) 1
      else infer_next_position raw' line_no (line_pos + 1)
  end.

Definition pos_working_loc_after (pm : PosMarker) (raw : string) : Z * Z :=
  infer_next_position raw (working_line_no pm) (working_line_pos pm).

Definition leaf_get_start_loc (seg : RawSegment) : Res (Z * Z) :=
  match pos_marker seg with
  | Some pm => Ok (working_loc pm)
  | None => Raise AssertionError
  end.

Definition leaf_get_end_loc (seg : RawSegment) : Res (Z * Z) :=
  match pos_marker seg with
  | Some pm => Ok (pos_working_loc_after pm (raw seg))
  | None => Raise AssertionError
  end.

(** Modelled from the spec: [seg.edit(raw)], the leaf with another text
    (its own text when the new one is empty) and a new identity. *)
Definition leaf_edit (u : Z) (seg : RawSegment) (new_raw : string)
  : RawSegment :=
  {| uuid := u;
     class_types := class_types seg;
     raw := if decide (new_raw = "") then raw seg else new_raw;
     pos_marker := pos_marker seg;
     is_code := is_code seg |}.

Definition string_code (s : string) : Z :=
  fold_left (fun acc c => acc * 31 + Z.of_nat (nat_of_ascii c))
            (list_ascii_of_string s) 0.

(** A hash of a segment from its class types, its text and its position. *)
Definition tree_hash (s : BaseSegment) : Z :=
  string_code (String.concat "," (seg_class_types s)
               +:+ "|" +:+ String.concat "" (map raw (tree_raw_segments s)))
  * 10000
  + match seg_pos_marker s with
    | Some pm => working_line_no pm * 100 + working_line_pos pm
    | None => 0
    end.

(** ** Example trees, blocks and points *)

Definition at_pos (line_no line_pos : Z) : option PosMarker :=
  Some (mkPosMarker line_no line_pos).

(** [select a]: a keyword, a space and a column reference. *)
Definition kw_select : RawSegment :=
  mkRawSegment 1 ["keyword"] "select" (at_pos 1 1) true.
Definition ws_select : RawSegment :=
  mkRawSegment 2 ["whitespace"] " " (at_pos 1 7) false.
Definition col_a : RawSegment :=
  mkRawSegment 3 ["naked_identifier"] "a" (at_pos 1 8) true.

Definition ex_reference : BaseSegment :=
  Branch ["column_reference"] (at_pos 1 8) [Raw col_a].
Definition ex_clause : BaseSegment :=
  Branch ["select_clause"] (at_pos 1 1)
         [Raw kw_select; Raw ws_select; ex_reference].
Definition ex_statement : BaseSegment :=
  Branch ["statement"] (at_pos 1 1) [ex_clause].
Definition ex_file : BaseSegment :=
  Branch ["file"] (at_pos 1 1) [ex_statement].

Definition stack_select : list PathStep :=
  [mkPathStep ex_file 0 1; mkPathStep ex_statement 0 1;
   mkPathStep ex_clause 0 3].
Definition stack_a : list PathStep :=
  [mkPathStep ex_file 0 1; mkPathStep ex_statement 0 1;
   mkPathStep ex_clause 2 3; mkPathStep ex_reference 0 1].

Definition block_of (r : RawSegment) (stack : list PathStep)
  (before after : string) (configs : gmap Z string) : ReflowBlock :=
  mkReflowBlock [r] before after (from_raw_and_stack tree_hash r stack) configs.

(** A leaf that an earlier fix created: it has no position. *)
Definition pending_leaf : RawSegment :=
  mkRawSegment 50 ["symbol"] "+" None true.

Definition nl_leaf : RawSegment :=
  mkRawSegment 20 ["newline"] (String "010"%char "") (at_pos 1 7) false.
Definition ws_two : RawSegment :=
  mkRawSegment 21 ["whitespace"] "  " (at_pos 2 1) false.
Definition ws_three : RawSegment :=
  mkRawSegment 22 ["whitespace"] " " (at_pos 2 3) false.

(** The blocks around the point between [select] and [a]. *)
Definition block_select (after : string) (configs : gmap Z string)
  : ReflowBlock :=
  block_of kw_select stack_select "single" after configs.
Definition block_a (before : string) : ReflowBlock :=
  block_of col_a stack_a before "single" ∅.

(** A block that ends on the pending leaf, with the depth of [select]. *)
Definition block_pending : ReflowBlock :=
  block_of pending_leaf stack_select "single" "single" ∅.

(** The fix that holds the pending leaf. *)
Definition pending_fix : LintFix :=
  mkLintFix "create_after" kw_select (Some [pending_leaf]).

Definition empty_state : State := mkState [] 100.

(** [aaaaaaaaa x, bb y] on one line, the aliases being the siblings. *)
Definition one_a : RawSegment :=
  mkRawSegment 11 ["naked_identifier"] "aaaaaaaaa" (at_pos 1 1) true.
Definition one_ws1 : RawSegment :=
  mkRawSegment 12 ["whitespace"] " " (at_pos 1 10) false.
Definition one_x : RawSegment :=
  mkRawSegment 13 ["alias_expression"] "x" (at_pos 1 11) true.
Definition one_comma : RawSegment :=
  mkRawSegment 14 ["comma"] "," (at_pos 1 12) true.
Definition one_ws2 : RawSegment :=
  mkRawSegment 15 ["whitespace"] " " (at_pos 1 13) false.
Definition one_b : RawSegment :=
  mkRawSegment 16 ["naked_identifier"] "bb" (at_pos 1 14) true.
Definition one_ws3 : RawSegment :=
  mkRawSegment 17 ["whitespace"] " " (at_pos 1 16) false.
Definition one_y : RawSegment :=
  mkRawSegment 18 ["alias_expression"] "y" (at_pos 1 17) true.

Definition one_clause : BaseSegment :=
  Branch ["select_clause"] (at_pos 1 1)
         [Raw one_a; Raw one_ws1; Raw one_x; Raw one_comma;
          Raw one_ws2; Raw one_b; Raw one_ws3; Raw one_y].
Definition one_file : BaseSegment :=
  Branch ["file"] (at_pos 1 1) [one_clause].

(** [a x] and [bbbb y] on two lines. *)
Definition two_a : RawSegment :=
  mkRawSegment 31 ["naked_identifier"] "a" (at_pos 1 1) true.
Definition two_ws1 : RawSegment :=
  mkRawSegment 32 ["whitespace"] " " (at_pos 1 2) false.
Definition two_x : RawSegment :=
  mkRawSegment 33 ["alias_expression"] "x" (at_pos 1 3) true.
Definition two_nl : RawSegment :=
  mkRawSegment 34 ["newline"] (String "010"%char "") (at_pos 1 4) false.
Definition two_b : RawSegment :=
  mkRawSegment 35 ["naked_identifier"] "bbbb" (at_pos 2 1) true.
Definition two_ws2 : RawSegment :=
  mkRawSegment 36 ["whitespace"] " " (at_pos 2 5) false.
Definition two_y : RawSegment :=
  mkRawSegment 37 ["alias_expression"] "y" (at_pos 2 6) true.

Definition two_clause : BaseSegment :=
  Branch ["select_clause"] (at_pos 1 1)
         [Raw two_a; Raw two_ws1; Raw two_x; Raw two_nl;
          Raw two_b; Raw two_ws2; Raw two_y].
Definition two_file : BaseSegment :=
  Branch ["file"] (at_pos 1 1) [two_clause].

(** The depth info of [a] in [select a]. *)
Definition info_a : DepthInfo := from_raw_and_stack tree_hash col_a stack_a.

(** A configuration for the examples: single around every block, and
    inline within a select clause. *)
Definition ex_block_config (cts : gset string) (d : option DepthInfo)
  : BlockConfig :=
  mkBlockConfig "single" "single"
    (if decide ("select_clause" ∈ cts) then Some "inline" else None).

(** Blocks with the file alone and with the column reference alone as
    their stack. *)
Definition block_file_only : ReflowBlock :=
  block_of kw_select [mkPathStep ex_file 0 1] "single" "single" ∅.
Definition block_reference_only : ReflowBlock :=
  block_of col_a [mkPathStep ex_reference 0 1] "single" "single" ∅.

(** The block of the first alias of the two lines. *)
Definition block_two_x : ReflowBlock :=
  block_of two_x
           [mkPathStep two_file 0 1; mkPathStep two_clause 2 7]
           "align:alias_expression:select_clause" "single" ∅.



Section Reflow.

(** Python's [hash] on a segment; [BaseSegment.__hash__] is not part of
    the two files. *)
Variable hash : BaseSegment -> Z.

(** [==] on leaves, [BaseSegment.__eq__]. *)
Variable seg_eq : RawSegment -> RawSegment -> bool.

(** The parser's tree queries. *)
Variable path_to : BaseSegment -> BaseSegment -> list PathStep.
Variable recursive_crawl : BaseSegment -> string -> list BaseSegment.
Variable raw_segments : BaseSegment -> list RawSegment.

(** Locations: [pos_marker.working_loc_after(raw)], [seg.get_start_loc()]
    and [seg.get_end_loc()]. *)
Variable working_loc_after : PosMarker -> string -> Z * Z.
Variable get_start_loc : RawSegment -> Res (Z * Z).
Variable get_end_loc : RawSegment -> Res (Z * Z).

(** [seg.edit(raw)]: a copy of the leaf with another text, under the
    fresh uuid given first. *)
Variable segment_edit : Z -> RawSegment -> string -> RawSegment.

(** ** elements.py *)

(** [x in l]: some element is the same object as [x] or equal to it. *)
Definition py_eq (x e : RawSegment) : bool :=
  bool_decide (x = e) || seg_eq x e.

Definition py_in (x : RawSegment) (l : list RawSegment) : bool :=
  existsb (py_eq x) l.

(** [l.index(x)] *)
Fixpoint py_index (l : list RawSegment) (x : RawSegment) : Res nat :=
  match l with
  | [] => Raise ValueError
  | e :: l' =>
      if py_eq e x then Ok 0%nat
      else let? i := py_index l' x in Ok (S i)
  end.

(** [l.remove(x)] *)
Fixpoint py_remove (l : list RawSegment) (x : RawSegment)
  : Res (list RawSegment) :=
  match l with
  | [] => Raise ValueError
  | e :: l' =>
      if py_eq e x then Ok l'
      else let? r := py_remove l' x in Ok (e :: r)
  end.

Definition raise_to_touch (constraint : string) : string :=
  if decide (constraint = "any") then constraint else "touch".

Definition _determine_constraints
  (prev_block next_block : option ReflowBlock) (strip_newlines : bool)
  : Res (string * string * bool) :=
  let pre_constraint :=
    match prev_block with
    | Some b => spacing_after b
    | None => "single"
    end in
  let post_constraint :=
    match next_block with
    | Some b => spacing_before b
    | None => "single"
    end in
  match prev_block, next_block with
  | Some pb, Some nb =>
      let? common := common_with (depth_info pb) (depth_info nb) in
      let? parent := py_last common in
      match stack_spacing_configs pb !! parent with
      | None => Ok (pre_constraint, post_constraint, strip_newlines)
      | Some within_constraint =>
          if decide (within_constraint = "") then
            Ok (pre_constraint, post_constraint, strip_newlines)
          else if bool_decide (within_constraint ∈ ["touch"; "inline"]) then
            let strip_newlines :=
              if decide (within_constraint = "inline") then true
              else strip_newlines in
            Ok (raise_to_touch pre_constraint,
                raise_to_touch post_constraint,
                strip_newlines)
          else
            (* the message of the error looks the class types up first *)
            match list_find (fun h => h = parent)
                            (stack_hashes (depth_info pb)) with
            | None => Raise ValueError
            | Some (i, _) =>
                match stack_class_types (depth_info pb) !! i with
                | None => Raise IndexError
                | Some _ => Raise NotImplementedError
                end
            end
      end
  | _, _ => Ok (pre_constraint, post_constraint, strip_newlines)
  end.

(** The loop of [_process_spacing]: the state is the removal buffer and
    the whitespace seen since the last line end. *)
Definition spacing_step (strip_newlines : bool)
  (state : list RawSegment * list RawSegment) (seg : RawSegment)
  : list RawSegment * list RawSegment :=
  let '(removal_buffer, last_whitespace) := state in
  if is_type seg ["whitespace"] then
    (removal_buffer, last_whitespace ++ [seg])
  else if is_type seg ["newline"; "end_of_file"] then
    if strip_newlines && is_type seg ["newline"] then
      (removal_buffer ++ [seg], last_whitespace)
    else
      (removal_buffer ++ last_whitespace, [])
  else (removal_buffer, last_whitespace).

Arguments spacing_step : simpl never.

Definition _process_spacing
  (segment_buffer : list RawSegment) (strip_newlines : bool)
  : M (list RawSegment * list RawSegment * list nat) :=
  let '(removal_buffer, last_whitespace) :=
    fold_left (spacing_step strip_newlines) segment_buffer ([], []) in
  let removal_buffer :=
    if (2 <=? length last_whitespace)%nat
    then removal_buffer ++ tail last_whitespace
    else removal_buffer in
  (let! fixes := new_fixes_of (map LintFix_delete removal_buffer) in
   ret (List.filter (fun s => negb (py_in s removal_buffer)) segment_buffer,
        last_whitespace,
        fixes))%M.

(** [seg.is_type(t)] for an optional type: [None] is no type at all. *)
Definition is_type_opt (s : BaseSegment) (t : option string) : bool :=
  match t with
  | Some t => has_type (seg_class_types s) [t]
  | None => false
  end.

(** The search for the segment to align within, over the reversed path:
    the last match of [align_within] stands, and the walk stops after the
    first segment of the boundary type. *)
Fixpoint find_parent (align_within align_boundary : option string)
  (parent_segment : option BaseSegment) (path : list PathStep)
  : option BaseSegment :=
  match path with
  | [] => parent_segment
  | ps :: path' =>
      let parent_segment :=
        if is_type_opt (segment ps) align_within then Some (segment ps)
        else parent_segment in
      if is_type_opt (segment ps) align_boundary then parent_segment
      else find_parent align_within align_boundary parent_segment path'
  end.

Definition unblocked_siblings (parent_segment : BaseSegment)
  (segment_type : string) (align_boundary : option string)
  : list BaseSegment :=
  List.filter
    (fun sibling =>
       negb (existsb (fun ps => is_type_opt (segment ps) align_boundary)
                     (path_to parent_segment sibling)))
    (recursive_crawl parent_segment segment_type).

Fixpoint any_same_line (siblings : list BaseSegment) (next_seg : RawSegment)
  : Res bool :=
  match siblings with
  | [] => Ok false
  | sibling :: siblings' =>
      let? spm := get_pos_marker (seg_pos_marker sibling) in
      let? npm := get_pos_marker (pos_marker next_seg) in
      if (working_line_no spm =? working_line_no npm)
         && negb (working_line_pos spm =? working_line_pos npm)
      then Ok true
      else any_same_line siblings' next_seg
  end.

Fixpoint scan_siblings (seg : RawSegment) (last_code : option RawSegment)
  (siblings : list BaseSegment) (max_desired_line_pos : Z) : Res Z :=
  match siblings with
  | [] => Ok max_desired_line_pos
  | sibling :: siblings' =>
      let? pm := get_pos_marker (pos_marker seg) in
      let? spm := get_pos_marker (seg_pos_marker sibling) in
      let? max_desired_line_pos :=
        if decide (working_loc pm = working_loc spm) then
          match last_code with
          | Some code =>
              let? cpm := get_pos_marker (pos_marker code) in
              let loc := working_loc_after cpm (raw code) in
              Ok (if loc.2 >? max_desired_line_pos then loc.2
                  else max_desired_line_pos)
          | None => Ok max_desired_line_pos
          end
        else Ok max_desired_line_pos in
      scan_siblings seg last_code siblings' max_desired_line_pos
  end.

Fixpoint scan_raw_segments (raws : list RawSegment)
  (siblings : list BaseSegment) (last_code : option RawSegment)
  (max_desired_line_pos : Z) : Res Z :=
  match raws with
  | [] => Ok max_desired_line_pos
  | seg :: raws' =>
      let? max_desired_line_pos :=
        scan_siblings seg last_code siblings max_desired_line_pos in
      scan_raw_segments raws' siblings
        (if is_code seg then Some seg else last_code)
        max_desired_line_pos
  end.

Definition _determine_aligned_inline_spacing
  (root_segment : BaseSegment) (whitespace_seg next_seg : RawSegment)
  (segment_type : string) (align_within align_boundary : option string)
  : Res string :=
  match find_parent align_within align_boundary None
                    (rev (path_to root_segment (Raw next_seg))) with
  | None => Ok " "
  | Some parent_segment =>
      let siblings :=
        unblocked_siblings parent_segment segment_type align_boundary in
      let? same_line := any_same_line siblings next_seg in
      if same_line then Ok " "
      else
        let? max_desired_line_pos :=
          scan_raw_segments (raw_segments parent_segment) siblings None 0 in
        let? wpm := get_pos_marker (pos_marker whitespace_seg) in
        Ok (spaces (1 + max_desired_line_pos - working_line_pos wpm))
  end.

Definition _handle_respace__inline_with_space
  (pre_constraint post_constraint : string)
  (next_block : option ReflowBlock) (root_segment : BaseSegment)
  (segment_buffer last_whitespace : list RawSegment)
  : M (list RawSegment * list nat) :=
  (let! ws_seg := lift (py_first last_whitespace) in
   let! ws_idx := lift (py_index segment_buffer ws_seg) in
   if bool_decide ("any" ∈ [pre_constraint; post_constraint]) then
     ret (segment_buffer, [])
   else if bool_decide ("touch" ∈ [pre_constraint; post_constraint]) then
     let! fix_ref := new_fix (mkLintFix "delete" ws_seg None) in
     ret (delete ws_idx segment_buffer, [fix_ref])
   else
     let aligned :=
       if startswith post_constraint "align" then next_block else None in
     if bool_decide (is_Some aligned)
        || bool_decide (pre_constraint = "single"
                        /\ post_constraint = "single") then
       let! desired_space :=
         match aligned with
         | Some next_block =>
             let alignment_config := split_colon post_constraint in
             let! seg_type := lift (py_nth alignment_config 1) in
             let align_within := alignment_config !! 2%nat in
             let align_boundary := alignment_config !! 3%nat in
             let! next_seg := lift (py_first (block_segments next_block)) in
             (* the debug message reads the position of the next leaf *)
             let! _ := lift (get_pos_marker (pos_marker next_seg)) in
             lift (_determine_aligned_inline_spacing
                     root_segment ws_seg next_seg
                     seg_type align_within align_boundary)
         | None => ret " "
         end in
       if decide (raw ws_seg = desired_space) then ret (segment_buffer, [])
       else
         let! u := fresh_uuid in
         let new_seg := segment_edit u ws_seg desired_space in
         let! fix_ref := new_fix (mkLintFix "replace" ws_seg (Some [new_seg])) in
         ret (<[ws_idx := new_seg]> segment_buffer, [fix_ref])
     else throw NotImplementedError)%M.

(** The pending fix to piggy back on: ["after"] with the last leaf of the
    previous block when that leaf has no position, else ["before"] with
    the first leaf of the next block when that one has none. *)
Definition detect_existing_fix (prev_block next_block : option ReflowBlock)
  : Res (option (string * RawSegment)) :=
  let? after :=
    match prev_block with
    | Some pb =>
        let? seg := py_last (block_segments pb) in
        Ok (match pos_marker seg with
            | None => Some seg
            | Some _ => None
            end)
    | None => Ok None
    end in
  match after with
  | Some seg => Ok (Some ("after", seg))
  | None =>
      match next_block with
      | Some nb =>
          let? seg := py_first (block_segments nb) in
          Ok (match pos_marker seg with
              | None => Some ("before", seg)
              | Some _ => None
              end)
      | None => Ok None
      end
  end.

(** [fix.edit and insertion.uuid in [elem.uuid for elem in fix.edit]] *)
Definition contains_insertion (insertion : RawSegment) (f : LintFix)
  : bool :=
  match edit f with
  | Some (e :: payload) =>
      bool_decide (uuid insertion ∈ map uuid (e :: payload))
  | _ => false
  end.

(** The for/else search for the fix that holds the insertion. *)
Fixpoint find_existing_fix (insertion : RawSegment) (existing_fixes : list nat)
  : M nat :=
  match existing_fixes with
  | [] => throw ValueError
  | fix_ref :: rest =>
      (let! f := get_fix fix_ref in
       if contains_insertion insertion f then ret fix_ref
       else find_existing_fix insertion rest)%M
  end.

Definition _handle_respace__inline_without_space
  (pre_constraint post_constraint : string)
  (prev_block next_block : option ReflowBlock)
  (segment_buffer : list RawSegment) (existing_fixes : list nat)
  : M (list RawSegment * list nat * bool) :=
  (if bool_decide ("touch" ∈ [pre_constraint; post_constraint])
      || bool_decide ("any" ∈ [pre_constraint; post_constraint]) then
     ret (segment_buffer, existing_fixes ++ [], false)
   else if bool_decide (pre_constraint = "single"
                        /\ post_constraint = "single") then
     let! u := fresh_uuid in
     let segment_buffer := segment_buffer ++ [WhitespaceSegment u] in
     let! existing := lift (detect_existing_fix prev_block next_block) in
     let! new_fixes :=
       match existing with
       | Some (existing_fix, insertion) =>
           match existing_fixes with
           | [] => throw ValueError
           | _ =>
               let! fix_ref := find_existing_fix insertion existing_fixes in
               let! f := get_fix fix_ref in
               let! payload :=
                 match edit f with
                 | Some (e :: l) => ret (e :: l)
                 | _ => throw AssertionError
                 end in
               let! u := fresh_uuid in
               let! _ :=
                 if decide (existing_fix = "before") then
                   set_fix_edit fix_ref ([WhitespaceSegment u] ++ payload)
                 else if decide (existing_fix = "after") then
                   set_fix_edit fix_ref (payload ++ [WhitespaceSegment u])
                 else ret tt in
               ret []
           end
       | None =>
           match prev_block, next_block with
           | Some pb, _ =>
               let! seg := lift (py_last (block_segments pb)) in
               let! u := fresh_uuid in
               let! fix_ref := new_fix (mkLintFix "create_after" seg
                                      (Some [WhitespaceSegment u])) in
               ret [fix_ref]
           | None, Some nb =>
               let! seg := lift (py_first (block_segments nb)) in
               let! u := fresh_uuid in
               let! fix_ref := new_fix (mkLintFix "create_before" seg
                                      (Some [WhitespaceSegment u])) in
               ret [fix_ref]
           | None, None =>
               (* the error object is built and dropped, not raised *)
               ret []
           end
       end in
     ret (segment_buffer, existing_fixes ++ new_fixes, true)
   else throw NotImplementedError)%M.

Definition is_line_end (seg : RawSegment) : bool :=
  is_type seg ["newline"; "end_of_file"].

Definition respace_point (self : ReflowPoint)
  (prev_block next_block : option ReflowBlock) (root_segment : BaseSegment)
  (fixes : list nat) (strip_newlines : bool)
  : M (list nat * ReflowPoint) :=
  (let! (pre_constraint, post_constraint, strip_newlines) :=
     lift (_determine_constraints prev_block next_block strip_newlines) in
   let! (segment_buffer, last_whitespace, new_fixes) :=
     _process_spacing (point_segments self) strip_newlines in
   if existsb is_line_end segment_buffer then
     match last_whitespace with
     | [ws_seg] =>
         let! ws_idx := lift (py_index (point_segments self) ws_seg) in
         match ws_idx with
         | O => ret (fixes ++ new_fixes, mkReflowPoint segment_buffer)
         | S before =>
             let! prev_seg := lift (py_nth (point_segments self) before) in
             let! gap :=
               if is_type prev_seg ["newline"] then
                 let! end_loc := lift (get_end_loc prev_seg) in
                 let! start_loc := lift (get_start_loc ws_seg) in
                 ret (loc_lt end_loc start_loc)
               else ret false in
             if gap then
               let! segment_buffer := lift (py_remove segment_buffer ws_seg) in
               let! fix_ref := new_fix (mkLintFix "delete" ws_seg None) in
               ret (fixes ++ (new_fixes ++ [fix_ref]),
                    mkReflowPoint segment_buffer)
             else ret (fixes ++ new_fixes, mkReflowPoint segment_buffer)
         end
     | _ => ret (fixes ++ new_fixes, mkReflowPoint segment_buffer)
     end
   else
     match last_whitespace with
     | _ :: _ =>
         let! (segment_buffer, delta_fixes) :=
           _handle_respace__inline_with_space
             pre_constraint post_constraint next_block root_segment
             segment_buffer last_whitespace in
         ret (fixes ++ (new_fixes ++ delta_fixes),
              mkReflowPoint segment_buffer)
     | [] =>
         let! (segment_buffer, fixes, edited) :=
           _handle_respace__inline_without_space
             pre_constraint post_constraint prev_block next_block
             segment_buffer fixes in
         ret (fixes ++ new_fixes, mkReflowPoint segment_buffer)
     end)%M.

(** [DepthMap.from_raws_and_root] *)
Definition from_raws_and_root (raw_segments : list RawSegment)
  (root_segment : BaseSegment) : DepthMap :=
  DepthMap_init hash
    (map (fun raw => (raw, path_to root_segment (Raw raw))) raw_segments).

(** [config.get_block_config(class_types, depth_info)] of the
    configuration, the depth info being optional. *)
Variable get_block_config : gset string -> option DepthInfo -> BlockConfig.

(** The loop of [from_config] over the zipped hashes and class types of
    the stack: a value of [spacing_within] that is not empty is recorded
    under the hash. *)
Definition spacing_within_step (configs : gmap Z string)
  (x : Z * list string) : gmap Z string :=
  match config_spacing_within (get_block_config (list_to_set x.2) None) with
  | Some spacing_within =>
      if decide (spacing_within = "") then configs
      else <[x.1 := spacing_within]> configs
  | None => configs
  end.

Definition from_config (segments : list RawSegment) (depth_info : DepthInfo)
  : ReflowBlock :=
  let block_config :=
    get_block_config (_class_types segments) (Some depth_info) in
  let stack_spacing_configs :=
    fold_left spacing_within_step
              (zip (stack_hashes depth_info) (stack_class_types depth_info))
              ∅ in
  {| block_segments := segments;
     spacing_before := config_spacing_before block_config;
     spacing_after := config_spacing_after block_config;
     depth_info := depth_info;
     stack_spacing_configs := stack_spacing_configs |}.

(** ** Notions used in the statements *)

Definition hashes_of (stack : list PathStep) : list Z :=
  map (fun ps => hash (segment ps)) stack.

Definition branch_hashes (s : BaseSegment) : list Z :=
  map hash (branches s).

(** What two leaves of one tree share: their stacks split into a common
    prefix without repetition and two rests with no hash in common. *)
Definition split_stacks (sa sb : list PathStep) (p r1 r2 : list Z) : Prop :=
  hashes_of sa = p ++ r1 /\ hashes_of sb = p ++ r2
  /\ NoDup p /\ (forall x, x ∈ r1 -> x ∈ r2 -> False).

Definition splits_below (s : BaseSegment) : Prop :=
  NoDup (branch_hashes s) ->
  forall xa xb,
    xa ∈ raw_segments_with_ancestors s ->
    xb ∈ raw_segments_with_ancestors s ->
    exists p r1 r2, split_stacks xa.2 xb.2 p r1 r2.

Definition default_pre (prev_block : option ReflowBlock) : string :=
  match prev_block with
  | Some b => spacing_after b
  | None => "single"
  end.

Definition default_post (next_block : option ReflowBlock) : string :=
  match next_block with
  | Some b => spacing_before b
  | None => "single"
  end.

(** The parts of the result of [_process_spacing], as functions of the
    buffer: the state after the loop, the retained whitespace, the removal
    buffer and the pruned buffer. *)
Definition loop_state (strip_newlines : bool) (buf : list RawSegment)
  : list RawSegment * list RawSegment :=
  fold_left (spacing_step strip_newlines) buf ([], []).

Definition retained (strip_newlines : bool) (buf : list RawSegment)
  : list RawSegment :=
  (loop_state strip_newlines buf).2.

Definition removals (strip_newlines : bool) (buf : list RawSegment)
  : list RawSegment :=
  if (2 <=? length (retained strip_newlines buf))%nat
  then (loop_state strip_newlines buf).1 ++ tail (retained strip_newlines buf)
  else (loop_state strip_newlines buf).1.

Definition kept (removed : list RawSegment) (s : RawSegment) : bool :=
  negb (py_in s removed).

Definition pruned (strip_newlines : bool) (buf : list RawSegment)
  : list RawSegment :=
  List.filter (kept (removals strip_newlines buf)) buf.

(** What the loop may remove: whitespace, and newlines when stripping. *)
Definition removable (strip : bool) (s : RawSegment) : Prop :=
  is_type s ["whitespace"] = true
  \/ (strip = true /\ is_type s ["newline"] = true).

(** The steps of the reversed path that the search looks at: up to the
    first step of the boundary type, that step included. *)
Fixpoint searched (align_boundary : option string) (path : list PathStep)
  : list PathStep :=
  match path with
  | [] => []
  | ps :: path' =>
      if is_type_opt (segment ps) align_boundary then [ps]
      else ps :: searched align_boundary path'
  end.

(** The last of the given steps whose segment is of the [within] type. *)
Definition last_match (align_within : option string) (steps : list PathStep)
  : option BaseSegment :=
  last (List.filter (fun s => is_type_opt s align_within) (map segment steps)).

(** A sibling on the line of the next leaf, at another column. *)
Definition on_same_line (siblings : list BaseSegment) (npm : PosMarker) : bool :=
  existsb
    (fun sibling =>
       match seg_pos_marker sibling with
       | Some spm =>
           (working_line_no spm =? working_line_no npm)
           && negb (working_line_pos spm =? working_line_pos npm)
       | None => false
       end)
    siblings.

(** The column after the text of a code leaf. *)
Definition end_column (code : RawSegment) : Z :=
  match pos_marker code with
  | Some pm => (working_loc_after pm (raw code)).2
  | None => 0
  end.

Definition same_loc (seg : RawSegment) (sibling : BaseSegment) : bool :=
  bool_decide (working_loc <$> pos_marker seg
               = working_loc <$> seg_pos_marker sibling).

(** The end columns recorded by the scan: for every leaf of the scope, in
    order, and every sibling at the working location of that leaf, the
    end column of the last code leaf before the leaf. *)
Fixpoint recorded_columns (raws : list RawSegment)
  (siblings : list BaseSegment) (last_code : option RawSegment) : list Z :=
  match raws with
  | [] => []
  | seg :: raws' =>
      match last_code with
      | Some code =>
          map (fun _ => end_column code) (List.filter (same_loc seg) siblings)
      | None => []
      end
      ++ recorded_columns raws' siblings
           (if is_code seg then Some seg else last_code)
  end.

(** The largest of the columns, 0 when there is none above 0. *)
Definition max_column (columns : list Z) : Z := fold_right Z.max 0 columns.

Definition is_whitespace (seg : RawSegment) : bool :=
  is_type seg ["whitespace"].

(** The leaves of a buffer are distinct: no two places hold the same
    object or equal ones. *)
Fixpoint distinct_leaves (l : list RawSegment) : bool :=
  match l with
  | [] => true
  | x :: l' =>
      forallb (fun y => negb (py_eq x y) && negb (py_eq y x)) l'
      && distinct_leaves l'
  end.

(** A newline that the loop strips. *)
Definition is_stripped (strip : bool) (seg : RawSegment) : bool :=
  negb (is_whitespace seg) && (strip && is_type seg ["newline"]).

(** A depth info as [from_raw_and_stack] builds it: the set caches the
    hashes, and the tuples of class types and positions are as long as
    the tuple of hashes, which is as long as the depth says. *)
Definition well_formed (d : DepthInfo) : Prop :=
  consistent d
  /\ length (stack_class_types d) = length (stack_hashes d)
  /\ length (stack_positions d) = length (stack_hashes d).

(** The override that [from_config] records for an ancestor with the
    given class types: the [spacing_within] of the configuration, unless
    it is missing or empty. *)
Definition within_of (cts : list string) : option string :=
  match config_spacing_within (get_block_config (list_to_set cts) None) with
  | Some spacing_within =>
      if decide (spacing_within = "") then None else Some spacing_within
  | None => None
  end.

(** The most immediate shared ancestor of two stacks of hashes, root
    first: a hash of the first stack that is in the second, after which
    the first stack has no hash of the second. *)
Definition immediate_shared_ancestor (a b : list Z) (h : Z) : Prop :=
  exists i, a !! i = Some h /\ h ∈ b
            /\ forall j x, (i < j)%nat -> a !! j = Some x -> x ∉ b.

(** * Properties *)

(** ** Ancestor stacks *)

Lemma from_raw_and_stack_consistent raw stack :
  consistent (from_raw_and_stack hash raw stack).
Proof.
  split; simpl; [reflexivity|].
  by rewrite length_map.
Qed.

Lemma shared_prefix_app (p r1 r2 : list Z) :
  (forall x, x ∈ r1 -> x ∈ r2 -> False) ->
  shared_prefix (p ++ r1) (p ++ r2) = p.
Proof.
  intros Hdisj. induction p as [|x p IH]; simpl.
  - destruct r1 as [|a r1], r2 as [|b r2]; simpl; try reflexivity.
    destruct (decide (a = b)) as [->|]; [|reflexivity].
    exfalso. apply (Hdisj b); left.
  - destruct (decide (x = x)); [|done]. by rewrite IH.
Qed.

Lemma common_set_of_split (p r1 r2 : list Z) :
  (forall x, x ∈ r1 -> x ∈ r2 -> False) ->
  (list_to_set (p ++ r1) : gset Z) ∩ list_to_set (p ++ r2) = list_to_set p.
Proof.
  intros Hdisj. apply set_eq. intros x.
  rewrite elem_of_intersection, !elem_of_list_to_set, !elem_of_app.
  specialize (Hdisj x). clear -Hdisj. tauto.
Qed.

(** Two stacks that split into a shared prefix and disjoint rests have
    that prefix in common. *)
Lemma common_with_split (a b : DepthInfo) (p r1 r2 : list Z) :
  consistent a ->
  stack_hashes a = p ++ r1 ->
  stack_hashes b = p ++ r2 ->
  NoDup p ->
  p <> [] ->
  (forall x, x ∈ r1 -> x ∈ r2 -> False) ->
  common_with a b = Ok p.
Proof.
  intros [Hset _] Ha Hb Hnd Hne Hdisj. unfold common_with.
  rewrite Hset, Ha, Hb, common_set_of_split by done.
  destruct (decide _) as [He|_].
  - destruct p as [|x p]; [done|]. exfalso.
    assert (x ∈ (list_to_set (x :: p) : gset Z)) as Hx
      by (apply elem_of_list_to_set; left).
    rewrite He in Hx. by apply not_elem_of_empty in Hx.
  - f_equal. rewrite size_list_to_set by done.
    by rewrite take_app_length.
Qed.

Lemma elem_of_concat {A} (x : A) (ls : list (list A)) :
  x ∈ concat ls <-> exists l, l ∈ ls /\ x ∈ l.
Proof.
  rewrite list_elem_of_In, in_concat. split; intros (l & H1 & H2); exists l.
  - by rewrite !list_elem_of_In.
  - by rewrite <- !list_elem_of_In.
Qed.

(** Induction on a tree with the hypothesis on every child. *)
Lemma BaseSegment_forall_ind (P : BaseSegment -> Prop) :
  (forall r, P (Raw r)) ->
  (forall cts pm kids, Forall P kids -> P (Branch cts pm kids)) ->
  forall s, P s.
Proof.
  intros HR HB. fix IH 1. intros [r|cts pm kids].
  - apply HR.
  - apply HB. induction kids as [|k kids IHk]; constructor; [apply IH|apply IHk].
Qed.

Lemma elem_of_children_paths paths parent n kids i x :
  x ∈ children_paths paths parent n i kids ->
  exists j k y,
    kids !! j = Some k /\ y ∈ paths k
    /\ x = with_step (mkPathStep parent (Z.of_nat (i + j)) (Z.of_nat n)) y.
Proof.
  revert i. induction kids as [|k kids IH]; intros i Hx; simpl in Hx.
  - by apply elem_of_nil in Hx.
  - apply elem_of_app in Hx as [Hx|Hx].
    + apply list_elem_of_fmap in Hx as (y & -> & Hy).
      exists 0%nat, k, y. by rewrite Nat.add_0_r.
    + apply IH in Hx as (j & k' & y & Hj & Hy & ->).
      exists (S j), k', y. by rewrite Nat.add_succ_r.
Qed.

(** Every step of a leaf's path is a branch of the tree. *)
Lemma path_steps_in_branches s :
  forall r st, (r, st) ∈ raw_segments_with_ancestors s ->
  forall ps, ps ∈ st -> segment ps ∈ branches s.
Proof.
  induction s as [r0|cts pm kids IH] using BaseSegment_forall_ind;
    intros r st Hin ps Hps; simpl in Hin.
  - apply list_elem_of_singleton in Hin. injection Hin as -> ->.
    by apply elem_of_nil in Hps.
  - apply elem_of_children_paths in Hin as (j & k & [r' st'] & Hj & Hy & Heq).
    injection Heq as -> ->. simpl.
    apply elem_of_cons in Hps as [->|Hps]; [left|right].
    apply elem_of_concat. exists (branches k). split.
    + apply list_elem_of_fmap. exists k. split; [done|].
      by eapply list_elem_of_lookup_2.
    + rewrite Forall_forall in IH.
      apply (IH k (list_elem_of_lookup_2 _ _ _ Hj) r' st' Hy ps Hps).
Qed.

Lemma path_hashes_in_branches s r st x :
  (r, st) ∈ raw_segments_with_ancestors s ->
  x ∈ hashes_of st -> x ∈ branch_hashes s.
Proof.
  intros Hin Hx. apply list_elem_of_fmap in Hx as (ps & -> & Hps).
  apply list_elem_of_fmap. exists (segment ps). split; [done|].
  by eapply path_steps_in_branches.
Qed.

Lemma children_split parent n kids :
  Forall splits_below kids ->
  NoDup (map hash (concat (map branches kids))) ->
  hash parent ∉ map hash (concat (map branches kids)) ->
  forall i xa xb,
    xa ∈ children_paths raw_segments_with_ancestors parent n i kids ->
    xb ∈ children_paths raw_segments_with_ancestors parent n i kids ->
    exists p r1 r2, split_stacks xa.2 xb.2 (hash parent :: p) r1 r2.
Proof.
  induction kids as [|k kids IH]; intros Hall Hnd Hh i xa xb Ha Hb.
  { by apply elem_of_nil in Ha. }
  simpl in Hnd, Hh. rewrite map_app in Hnd, Hh.
  apply NoDup_app in Hnd as (Hndk & Hdisj & Hndks).
  apply not_elem_of_app in Hh as [Hhk Hhks].
  apply Forall_cons in Hall as [Hk Hks].
  assert (forall x j,
            x ∈ children_paths raw_segments_with_ancestors parent n j kids ->
            exists ps st, x.2 = ps :: st /\ segment ps = parent
              /\ forall h, h ∈ hashes_of st ->
                   h ∈ map hash (concat (map branches kids))) as Hrest.
  { intros x j Hx.
    apply elem_of_children_paths in Hx as (j' & k' & [r' st'] & Hj' & Hy & ->).
    eexists _, st'. split; [done|]. split; [done|]. intros h Hin.
    apply (path_hashes_in_branches _ _ _ _ Hy) in Hin.
    unfold branch_hashes in Hin.
    apply list_elem_of_fmap in Hin as (b & -> & Hb').
    apply list_elem_of_fmap. exists b. split; [done|].
    apply elem_of_concat. exists (branches k'). split; [|done].
    apply list_elem_of_fmap. exists k'. split; [done|].
    by eapply list_elem_of_lookup_2. }
  assert (forall x,
            x ∈ map (with_step (mkPathStep parent (Z.of_nat i) (Z.of_nat n)))
                  (raw_segments_with_ancestors k) ->
            exists y, y ∈ raw_segments_with_ancestors k
              /\ x.2 = mkPathStep parent (Z.of_nat i) (Z.of_nat n) :: y.2
              /\ forall h, h ∈ hashes_of y.2 -> h ∈ map hash (branches k))
    as Hfirst.
  { intros x Hx. apply list_elem_of_fmap in Hx as (y & -> & Hy).
    exists y. split; [done|]. split; [done|]. intros h Hin.
    destruct y as [r' st'].
    apply (path_hashes_in_branches _ _ _ _ Hy Hin). }
  simpl in Ha, Hb.
  apply elem_of_app in Ha as [Ha|Ha]; apply elem_of_app in Hb as [Hb|Hb].
  - apply Hfirst in Ha as (ya & Hya & -> & Hia).
    apply Hfirst in Hb as (yb & Hyb & -> & Hib).
    destruct (Hk Hndk ya yb Hya Hyb) as (p & r1 & r2 & E1 & E2 & Hp & Hd).
    exists p, r1, r2. unfold split_stacks. simpl.
    fold (hashes_of ya.2). fold (hashes_of yb.2). rewrite E1, E2.
    repeat split; try done.
    apply NoDup_cons. split; [|done]. intros Hin. apply Hhk, Hia.
    rewrite E1. apply elem_of_app. by left.
  - apply Hfirst in Ha as (ya & Hya & -> & Hia).
    apply Hrest in Hb as (ps & st & -> & Hps & Hib).
    exists [], (hashes_of ya.2), (hashes_of st). unfold split_stacks. simpl.
    rewrite Hps. repeat split; try done.
    + apply NoDup_singleton.
    + intros x H1 H2. apply (Hdisj x); auto.
  - apply Hrest in Ha as (ps & st & -> & Hps & Hia).
    apply Hfirst in Hb as (yb & Hyb & -> & Hib).
    exists [], (hashes_of st), (hashes_of yb.2). unfold split_stacks. simpl.
    rewrite Hps. repeat split; try done.
    + apply NoDup_singleton.
    + intros x H1 H2. apply (Hdisj x); auto.
  - by apply (IH Hks Hndks Hhks (S i)).
Qed.

Lemma same_tree_splits s : splits_below s.
Proof.
  induction s as [r0|cts pm kids IH] using BaseSegment_forall_ind;
    intros Hnd xa xb Ha Hb; simpl in Ha, Hb.
  - apply list_elem_of_singleton in Ha as ->.
    apply list_elem_of_singleton in Hb as ->.
    exists [], [], []. unfold split_stacks; simpl.
    split_and!; [done|done|constructor|].
    intros x Hx. by apply elem_of_nil in Hx.
  - unfold branch_hashes in Hnd. simpl in Hnd.
    apply NoDup_cons in Hnd as [Hh Hnd].
    destruct (children_split _ _ _ IH Hnd Hh _ _ _ Ha Hb) as (p & r1 & r2 & H).
    by exists (hash (Branch cts pm kids) :: p), r1, r2.
Qed.

(** Two leaves of a tree whose branches have distinct hashes: both
    directions of [common_with] return the same non-empty prefix. *)
Lemma same_tree_common root xa xb :
  is_branch root = true ->
  NoDup (branch_hashes root) ->
  xa ∈ raw_segments_with_ancestors root ->
  xb ∈ raw_segments_with_ancestors root ->
  exists p r1 r2,
    p <> [] /\ split_stacks xa.2 xb.2 p r1 r2
    /\ common_with (from_raw_and_stack hash xa.1 xa.2)
                   (from_raw_and_stack hash xb.1 xb.2) = Ok p
    /\ common_with (from_raw_and_stack hash xb.1 xb.2)
                   (from_raw_and_stack hash xa.1 xa.2) = Ok p.
Proof.
  intros Hbr Hnd Ha Hb. destruct root as [r|cts pm kids]; [done|].
  unfold branch_hashes in Hnd. simpl in Hnd, Ha, Hb.
  apply NoDup_cons in Hnd as [Hh Hnd].
  assert (Forall splits_below kids) as Hall
    by (apply Forall_forall; intros; apply same_tree_splits).
  destruct (children_split _ _ _ Hall Hnd Hh _ _ _ Ha Hb)
    as (p & r1 & r2 & E1 & E2 & Hp & Hd).
  exists (hash (Branch cts pm kids) :: p), r1, r2.
  split; [done|]. split; [done|]. split.
  - eapply common_with_split; eauto using from_raw_and_stack_consistent.
  - eapply common_with_split; eauto using from_raw_and_stack_consistent.
Qed.

Lemma shared_prefix_is_prefix (a b : list Z) :
  shared_prefix a b `prefix_of` a /\ shared_prefix a b `prefix_of` b.
Proof.
  revert b. induction a as [|x a IH]; intros [|y b]; simpl;
    try (split; apply prefix_nil).
  destruct (decide (x = y)) as [->|]; [|split; apply prefix_nil].
  destruct (IH b). split; by apply prefix_cons.
Qed.

Lemma shared_prefix_longest (a b q : list Z) :
  q `prefix_of` a -> q `prefix_of` b -> q `prefix_of` shared_prefix a b.
Proof.
  revert a b. induction q as [|x q IH]; intros a b [ra ->] [rb ->]; simpl.
  - apply prefix_nil.
  - destruct (decide (x = x)); [|done].
    apply prefix_cons, IH; by eexists.
Qed.

(** C4: for two depth infos built from leaves of one tree (a branch whose
    branch nodes have distinct hashes), [common_with] returns a tuple that
    is not empty, is at most as long as the smaller of the two stack
    depths, and is the longest prefix that the two stacks share. *)
Theorem common_with_shared_prefix root raw_a stack_a raw_b stack_b :
  is_branch root = true ->
  NoDup (branch_hashes root) ->
  (raw_a, stack_a) ∈ raw_segments_with_ancestors root ->
  (raw_b, stack_b) ∈ raw_segments_with_ancestors root ->
  exists common,
    common_with (from_raw_and_stack hash raw_a stack_a)
                (from_raw_and_stack hash raw_b stack_b) = Ok common
    /\ common <> []
    /\ Z.of_nat (length common)
       <= Z.min (stack_depth (from_raw_and_stack hash raw_a stack_a))
                (stack_depth (from_raw_and_stack hash raw_b stack_b))
    /\ common = shared_prefix (stack_hashes (from_raw_and_stack hash raw_a stack_a))
                              (stack_hashes (from_raw_and_stack hash raw_b stack_b)).
Proof.
  intros Hbr Hnd Ha Hb.
  destruct (same_tree_common root _ _ Hbr Hnd Ha Hb)
    as (p & r1 & r2 & Hne & (E1 & E2 & Hp & Hd) & Hab & _).
  simpl in *. exists p. split; [done|]. split; [done|].
  unfold hashes_of in E1, E2. split.
  - assert (length p <= length stack_a)%nat
      by (rewrite <- (length_map (fun ps => hash (segment ps)) stack_a), E1,
            length_app; lia).
    assert (length p <= length stack_b)%nat
      by (rewrite <- (length_map (fun ps => hash (segment ps)) stack_b), E2,
            length_app; lia).
    lia.
  - rewrite E1, E2. symmetry. by apply shared_prefix_app.
Qed.

(** C5: for two depth infos built from leaves of one tree, the identities
    returned by [a.common_with(b)] and by [b.common_with(a)] are the same
    set. *)
Theorem common_with_symmetric root raw_a stack_a raw_b stack_b :
  is_branch root = true ->
  NoDup (branch_hashes root) ->
  (raw_a, stack_a) ∈ raw_segments_with_ancestors root ->
  (raw_b, stack_b) ∈ raw_segments_with_ancestors root ->
  exists common_ab common_ba,
    common_with (from_raw_and_stack hash raw_a stack_a)
                (from_raw_and_stack hash raw_b stack_b) = Ok common_ab
    /\ common_with (from_raw_and_stack hash raw_b stack_b)
                   (from_raw_and_stack hash raw_a stack_a) = Ok common_ba
    /\ (list_to_set common_ab : gset Z) = list_to_set common_ba.
Proof.
  intros Hbr Hnd Ha Hb.
  destruct (same_tree_common root _ _ Hbr Hnd Ha Hb)
    as (p & r1 & r2 & _ & _ & Hab & Hba).
  by exists p, p.
Qed.

(** C9: on two depth infos whose identity sets do not meet, [common_with]
    raises the assertion error; and whenever it returns, the prefix it
    returns is not empty. *)
Theorem common_with_no_common_ancestor (a b : DepthInfo) :
  consistent a ->
  consistent b ->
  (stack_hash_set a ∩ stack_hash_set b = ∅ ->
   common_with a b = Raise AssertionError)
  /\ (forall common, common_with a b = Ok common ->
      common <> [] /\ stack_hash_set a ∩ stack_hash_set b <> ∅).
Proof.
  intros [Ha _] [Hb _]. unfold common_with. rewrite <- Hb. split.
  - intros ->. by destruct (decide _).
  - intros common. destruct (decide _) as [|Hne]; [done|].
    intros [= <-]. split; [|done].
    assert (size (stack_hash_set a ∩ stack_hash_set b) <> 0%nat) as Hsz.
    { apply size_non_empty_iff. intros He. by apply leibniz_equiv in He. }
    assert (exists x, x ∈ stack_hash_set a ∩ stack_hash_set b) as [x Hx].
    { apply size_pos_elem_of. lia. }
    apply elem_of_intersection in Hx as [Hx _].
    rewrite Ha in Hx. apply elem_of_list_to_set in Hx.
    destruct (stack_hashes a) as [|h hs]; [by apply elem_of_nil in Hx|].
    destruct (size _); [lia|done].
Qed.

Lemma path_hashes_NoDup root x :
  NoDup (branch_hashes root) ->
  x ∈ raw_segments_with_ancestors root ->
  NoDup (hashes_of x.2).
Proof.
  intros Hnd Hx.
  destruct (same_tree_splits root Hnd x x Hx Hx)
    as (p & r1 & r2 & E1 & E2 & Hp & Hdisj).
  assert (r1 = r2) as <- by (apply (app_inv_head p); congruence).
  destruct r1 as [|a r1]; [by rewrite E1, app_nil_r|].
  exfalso. apply (Hdisj a); left.
Qed.

(** In two stacks that split into a shared prefix and disjoint rests, the
    last hash of the prefix is the most immediate shared ancestor, and
    the only one. *)
Lemma split_immediate_ancestor (a b p r1 r2 : list Z) (parent : Z) :
  a = p ++ r1 -> b = p ++ r2 ->
  NoDup a ->
  (forall x, x ∈ r1 -> x ∈ r2 -> False) ->
  last p = Some parent ->
  immediate_shared_ancestor a b parent
  /\ forall h, immediate_shared_ancestor a b h -> h = parent.
Proof.
  intros -> -> Hnd Hdisj Hlast.
  apply last_Some in Hlast as [p' ->].
  apply NoDup_app in Hnd as (_ & Hsep & _).
  assert (parent ∈ (p' ++ [parent]) ++ r2) as Hpb.
  { apply elem_of_app. left. apply elem_of_app. right. left. }
  assert (((p' ++ [parent]) ++ r1) !! length p' = Some parent) as Hat.
  { rewrite <- app_assoc. apply list_lookup_middle. done. }
  assert (forall j x, (length p' < j)%nat ->
            ((p' ++ [parent]) ++ r1) !! j = Some x ->
            x ∉ (p' ++ [parent]) ++ r2) as Hdeep.
  { intros j x Hj Hx Hin.
    rewrite lookup_app_r in Hx by (rewrite length_app; simpl; lia).
    apply list_elem_of_lookup_2 in Hx.
    apply elem_of_app in Hin as [Hin|Hin].
    - by apply (Hsep x).
    - by apply (Hdisj x). }
  split.
  - exists (length p'). done.
  - intros h (i & Hi & Hb & Hafter).
    destruct (lt_eq_lt_dec i (length p')) as [[Hlt | ->] | Hgt].
    + exfalso. by apply (Hafter (length p') parent).
    + congruence.
    + exfalso. by apply (Hdeep i h).
Qed.

(** ** Constraint resolver *)

(** C2: the resolver returns the spacing after the previous block and
    the spacing before the next block, or single for a missing block, with
    the flag as given, when a block is missing.  For two blocks with the
    depth infos of two leaves of one tree, the stacks have exactly one
    most immediate shared ancestor; when the previous block holds no
    override for it (none, or the empty value) the resolver returns the
    same; under an override of touch or inline for it every constraint
    that is not any becomes touch, any stays, and inline sets the flag.
    Whatever the stacks, the hash whose override is looked up is the last
    of those that [common_with] returns. *)
Theorem determine_constraints_spec
  (prev_block next_block : option ReflowBlock) (strip_newlines : bool) :
  (prev_block = None \/ next_block = None ->
   _determine_constraints prev_block next_block strip_newlines
   = Ok (default_pre prev_block, default_post next_block, strip_newlines))
  /\ (forall pb nb root raw_a stack_a raw_b stack_b,
      prev_block = Some pb -> next_block = Some nb ->
      is_branch root = true ->
      NoDup (branch_hashes root) ->
      (raw_a, stack_a) ∈ raw_segments_with_ancestors root ->
      (raw_b, stack_b) ∈ raw_segments_with_ancestors root ->
      depth_info pb = from_raw_and_stack hash raw_a stack_a ->
      depth_info nb = from_raw_and_stack hash raw_b stack_b ->
      exists ancestor,
        immediate_shared_ancestor (hashes_of stack_a) (hashes_of stack_b)
                                  ancestor
        /\ (forall h,
              immediate_shared_ancestor (hashes_of stack_a)
                                        (hashes_of stack_b) h ->
              h = ancestor)
        /\ (stack_spacing_configs pb !! ancestor = None
            \/ stack_spacing_configs pb !! ancestor = Some "" ->
            _determine_constraints prev_block next_block strip_newlines
            = Ok (spacing_after pb, spacing_before nb, strip_newlines))
        /\ (forall within,
              stack_spacing_configs pb !! ancestor = Some within ->
              within = "touch" \/ within = "inline" ->
              exists pre post strip,
                _determine_constraints prev_block next_block strip_newlines
                = Ok (pre, post, strip)
                /\ (spacing_after pb = "any" -> pre = "any")
                /\ (spacing_after pb <> "any" -> pre = "touch")
                /\ (spacing_before nb = "any" -> post = "any")
                /\ (spacing_before nb <> "any" -> post = "touch")
                /\ (within = "inline" -> strip = true)
                /\ (within = "touch" -> strip = strip_newlines)))
  /\ (forall pb nb common parent,
      prev_block = Some pb -> next_block = Some nb ->
      common_with (depth_info pb) (depth_info nb) = Ok common ->
      last common = Some parent ->
      (stack_spacing_configs pb !! parent = None
       \/ stack_spacing_configs pb !! parent = Some "" ->
       _determine_constraints prev_block next_block strip_newlines
       = Ok (spacing_after pb, spacing_before nb, strip_newlines))
      /\ (forall within,
          stack_spacing_configs pb !! parent = Some within ->
          within = "touch" \/ within = "inline" ->
          _determine_constraints prev_block next_block strip_newlines
          = Ok (raise_to_touch (spacing_after pb),
                raise_to_touch (spacing_before nb),
                if decide (within = "inline") then true
                else strip_newlines))).
Proof.
  split; [|split]; cycle 2.
  { intros pb nb common parent -> -> Hc Hl. unfold _determine_constraints.
    rewrite Hc. cbn [res_bind]. unfold py_last. rewrite Hl. cbn [res_bind].
    split.
    - intros [-> | ->]; reflexivity.
    - intros within -> [-> | ->]; reflexivity. }
  - intros [-> | ->]; [reflexivity|]. by destruct prev_block.
  - intros pb nb root raw_a stack_a raw_b stack_b -> -> Hbr Hnd Ha Hb Hda Hdb.
    destruct (same_tree_common root _ _ Hbr Hnd Ha Hb)
      as (p & r1 & r2 & Hne & (E1 & E2 & _ & Hd) & Hc & _).
    cbn [fst snd] in *.
    destruct (last p) as [parent|] eqn:Hl; [|by apply last_None in Hl].
    pose proof (path_hashes_NoDup root (raw_a, stack_a) Hnd Ha) as Hnda.
    destruct (split_immediate_ancestor _ _ p r1 r2 parent E1 E2 Hnda Hd Hl)
      as [Hisa Huniq].
    exists parent. split; [done|]. split; [done|].
    unfold _determine_constraints. rewrite Hda, Hdb, Hc. cbn [res_bind].
    unfold py_last. rewrite Hl. cbn [res_bind]. split.
    + intros [-> | ->]; reflexivity.
    + intros within -> [-> | ->];
        (eexists _, _, _; split; [reflexivity|]);
        unfold raise_to_touch; split_and!; intros; by case_decide.
Qed.

(** ** Spacing processor *)

Lemma new_fixes_of_run (l : list LintFix) (st : State) :
  new_fixes_of l st
  = Ok (seq (length (fix_store st)) (length l),
        mkState (fix_store st ++ l) (uuid_source st)).
Proof.
  revert st. induction l as [|f l IH]; intros [store u]; simpl.
  - unfold ret. by rewrite app_nil_r.
  - unfold bind, new_fix. simpl. rewrite IH. simpl. unfold ret.
    rewrite length_app, Nat.add_1_r. simpl. by rewrite <- app_assoc.
Qed.

Lemma process_spacing_run buf strip st :
  _process_spacing buf strip st
  = Ok ((pruned strip buf, retained strip buf,
         seq (length (fix_store st)) (length (removals strip buf))),
        mkState (fix_store st ++ map LintFix_delete (removals strip buf))
                (uuid_source st)).
Proof.
  unfold _process_spacing, pruned, removals, retained, loop_state, kept.
  destruct (fold_left _ _ _) as [rb lw]. simpl.
  unfold bind. rewrite new_fixes_of_run. unfold ret.
  by rewrite length_map.
Qed.

Lemma py_in_elem s l : s ∈ l -> py_in s l = true.
Proof.
  intros Hin. unfold py_in. apply existsb_exists. exists s. split.
  - by apply list_elem_of_In.
  - unfold py_eq. by rewrite bool_decide_eq_true_2.
Qed.

Lemma spacing_step_cases strip rb lw seg :
  (is_type seg ["whitespace"] = true
   /\ spacing_step strip (rb, lw) seg = (rb, lw ++ [seg]))
  \/ (is_type seg ["whitespace"] = false /\ strip = true
      /\ is_type seg ["newline"] = true
      /\ spacing_step strip (rb, lw) seg = (rb ++ [seg], lw))
  \/ (is_type seg ["whitespace"] = false
      /\ is_type seg ["newline"; "end_of_file"] = true
      /\ strip && is_type seg ["newline"] = false
      /\ spacing_step strip (rb, lw) seg = (rb ++ lw, []))
  \/ (is_type seg ["whitespace"] = false
      /\ is_type seg ["newline"; "end_of_file"] = false
      /\ spacing_step strip (rb, lw) seg = (rb, lw)).
Proof.
  unfold spacing_step.
  destruct (is_type seg ["whitespace"]) eqn:Hw; [by left|].
  destruct (is_type seg ["newline"; "end_of_file"]) eqn:He; [|by do 3 right].
  destruct (strip && is_type seg ["newline"]) eqn:Hs.
  - apply andb_true_iff in Hs as [-> Hn]. right; left. by rewrite Hn.
  - right; right; left. done.
Qed.

Lemma loop_invariant strip buf (P : RawSegment -> Prop) rb lw :
  Forall (fun s => removable strip s /\ P s) rb ->
  Forall (fun s => is_type s ["whitespace"] = true /\ P s) lw ->
  Forall P buf ->
  Forall (fun s => removable strip s /\ P s)
         (fold_left (spacing_step strip) buf (rb, lw)).1
  /\ Forall (fun s => is_type s ["whitespace"] = true /\ P s)
            (fold_left (spacing_step strip) buf (rb, lw)).2.
Proof.
  revert rb lw. induction buf as [|seg buf IH]; intros rb lw Hrb Hlw Hbuf.
  { done. }
  apply Forall_cons in Hbuf as [Hseg Hbuf]. simpl.
  assert (Forall (fun s => removable strip s /\ P s) lw) as Hlw'.
  { eapply Forall_impl; [exact Hlw|]. intros s [? ?]. split; [by left|done]. }
  destruct (spacing_step_cases strip rb lw seg)
    as [[Hw ->] | [(Hw & -> & Hn & ->) | [(Hw & He & Hs & ->) | (Hw & He & ->)]]];
    apply IH; try done.
  - apply Forall_app. split; [done|]. by apply Forall_singleton.
  - apply Forall_app. split; [done|]. apply Forall_singleton.
    split; [by right|done].
  - apply Forall_app. by split.
Qed.

Lemma removals_invariant strip buf (P : RawSegment -> Prop) :
  Forall P buf ->
  Forall (fun s => removable strip s /\ P s) (removals strip buf)
  /\ Forall (fun s => is_type s ["whitespace"] = true /\ P s)
            (retained strip buf).
Proof.
  intros Hbuf.
  destruct (loop_invariant strip buf P [] [] ltac:(constructor)
              ltac:(constructor) Hbuf) as [H1 H2].
  split; [|done]. unfold removals, retained, loop_state.
  destruct (_ <=? _)%nat; [|done].
  apply Forall_app. split; [done|].
  destruct (fold_left _ _ _).2 as [|w l]; [constructor|].
  apply Forall_cons in H2 as [_ H2]. simpl.
  eapply Forall_impl; [exact H2|]. intros s [? ?]. split; [by left|done].
Qed.

Lemma filter_sublist {A} (f : A -> bool) (l : list A) :
  List.filter f l `sublist_of` l.
Proof.
  induction l as [|x l IH]; simpl; [constructor|].
  destruct (f x); by constructor.
Qed.

Lemma elem_of_List_filter {A} (f : A -> bool) (l : list A) x :
  x ∈ List.filter f l <-> x ∈ l /\ f x = true.
Proof. by rewrite !list_elem_of_In, filter_In. Qed.

Lemma loop_removal_grows strip buf rb lw s :
  s ∈ rb -> s ∈ (fold_left (spacing_step strip) buf (rb, lw)).1.
Proof.
  revert rb lw. induction buf as [|seg buf IH]; intros rb lw Hs; [done|].
  simpl.
  destruct (spacing_step_cases strip rb lw seg)
    as [[Hw ->] | [(Hw & -> & Hn & ->) | [(Hw & He & Hx & ->) | (Hw & He & ->)]]];
    apply IH; try done; apply elem_of_app; by left.
Qed.

Lemma filter_kept_app removed (l1 l2 : list RawSegment) :
  List.filter (kept removed) (l1 ++ l2)
  = List.filter (kept removed) l1 ++ List.filter (kept removed) l2.
Proof. apply List.filter_app. Qed.

Lemma filter_kept_all_removed removed (l : list RawSegment) :
  (forall s, s ∈ l -> py_in s removed = true) ->
  List.filter (kept removed) l = [].
Proof.
  induction l as [|x l IH]; intros H; [done|]. simpl. unfold kept at 1.
  rewrite (H x) by left. simpl. apply IH. intros s Hs. apply H. by right.
Qed.

(** The loop on the pruned buffer, next to the loop on the buffer: when
    [removed] holds all that the first loop removes, the second loop
    removes nothing and sees the whitespace that the first one sees and
    that is kept. *)
Lemma loop_on_pruned strip removed buf rb lw :
  (forall s, s ∈ (fold_left (spacing_step strip) buf (rb, lw)).1 ->
             py_in s removed = true) ->
  fold_left (spacing_step strip) (List.filter (kept removed) buf)
            ([], List.filter (kept removed) lw)
  = ([], List.filter (kept removed)
           (fold_left (spacing_step strip) buf (rb, lw)).2).
Proof.
  revert rb lw. induction buf as [|seg buf IH]; intros rb lw Hrem; [done|].
  simpl in Hrem. simpl.
  destruct (spacing_step_cases strip rb lw seg)
    as [[Hw E] | [(Hw & -> & Hn & E) | [(Hw & He & Hx & E) | (Hw & He & E)]]];
    rewrite E in *.
  - specialize (IH _ _ Hrem). rewrite filter_kept_app in IH. simpl in IH.
    destruct (kept removed seg) eqn:Hk; simpl.
    + destruct (spacing_step_cases strip [] (List.filter (kept removed) lw) seg)
        as [[_ ->] | [(? & _) | [(? & _) | (? & _)]]]; [done|congruence..].
    + by rewrite app_nil_r in IH.
  - assert (kept removed seg = false) as ->.
    { unfold kept. rewrite Hrem; [done|].
      apply loop_removal_grows, elem_of_app. right. left. }
    by apply IH.
  - assert (List.filter (kept removed) lw = []) as Hlw.
    { apply filter_kept_all_removed. intros s Hs. apply Hrem.
      apply loop_removal_grows, elem_of_app. by right. }
    rewrite Hlw. specialize (IH _ _ Hrem). simpl in IH.
    destruct (kept removed seg) eqn:Hk; simpl; [|done].
    destruct (spacing_step_cases strip [] [] seg)
      as [[? _] | [(_ & -> & Hn & _) | [(_ & _ & _ & ->) | (_ & ? & _)]]];
      [congruence| |done|congruence].
    simpl in Hx. congruence.
  - specialize (IH _ _ Hrem).
    destruct (kept removed seg) eqn:Hk; simpl; [|done].
    destruct (spacing_step_cases strip [] (List.filter (kept removed) lw) seg)
      as [[? _] | [(_ & _ & Hn & _) | [(_ & ? & _) | (_ & _ & ->)]]];
      [congruence| |congruence|done].
    unfold is_type, has_type in Hn, He. simpl in Hn, He.
    rewrite orb_false_r in Hn. rewrite Hn in He. done.
Qed.

Lemma filter_kept_nil (l : list RawSegment) : List.filter (kept []) l = l.
Proof.
  induction l as [|x l IH]; [done|].
  change (List.filter (kept []) (x :: l)) with (x :: List.filter (kept []) l).
  by rewrite IH.
Qed.

Lemma filter_length_le {A} (f : A -> bool) (l : list A) :
  (length (List.filter f l) <= length l)%nat.
Proof.
  induction l as [|x l IH]; simpl; [lia|]. destruct (f x); simpl; lia.
Qed.

(** After pruning, at most one whitespace leaf is retained and nothing is
    left to remove. *)
Lemma pruned_stable strip buf :
  (loop_state strip (pruned strip buf)).1 = []
  /\ (length (retained strip (pruned strip buf)) <= 1)%nat.
Proof.
  assert (forall s, s ∈ (loop_state strip buf).1 ->
                    py_in s (removals strip buf) = true) as Hrem.
  { intros s Hs. apply py_in_elem. unfold removals.
    destruct (_ <=? _)%nat; [|done]. apply elem_of_app. by left. }
  assert ((2 <= length (retained strip buf))%nat ->
          forall s, s ∈ tail (retained strip buf) ->
                    py_in s (removals strip buf) = true) as Htail.
  { intros Hlen s Hs. apply py_in_elem. unfold removals.
    destruct (Nat.leb_spec 2 (length (retained strip buf))); [|lia].
    apply elem_of_app. by right. }
  assert (loop_state strip (pruned strip buf)
          = ([], List.filter (kept (removals strip buf)) (retained strip buf)))
    as E by exact (loop_on_pruned strip (removals strip buf) buf [] [] Hrem).
  unfold retained at 1. rewrite E. split; [done|]. cbn [snd].
  destruct (Nat.le_gt_cases 2 (length (retained strip buf))) as [Hlen|Hlen].
  - specialize (Htail Hlen).
    destruct (retained strip buf) as [|w lw]; [simpl in Hlen; lia|].
    cbn [List.filter]. simpl in Htail.
    rewrite (filter_kept_all_removed _ lw Htail).
    destruct (kept _ w); simpl; lia.
  - pose proof (filter_length_le (kept (removals strip buf))
                                 (retained strip buf)). lia.
Qed.

Lemma removals_pruned strip buf : removals strip (pruned strip buf) = [].
Proof.
  destruct (pruned_stable strip buf) as [H1 H2]. unfold removals.
  destruct (Nat.leb_spec 2 (length (retained strip (pruned strip buf))));
    [lia|done].
Qed.

(** C3: [_process_spacing] run on the pruned buffer that it returned, with
    the same flag, returns that buffer again and no deletion fix, and
    leaves the store as it is. *)
Theorem process_spacing_idempotent (buf : list RawSegment) (strip : bool)
  (st : State) :
  exists out last_whitespace fixes st1 last_whitespace',
    _process_spacing buf strip st = Ok ((out, last_whitespace, fixes), st1)
    /\ _process_spacing out strip st1 = Ok ((out, last_whitespace', []), st1).
Proof.
  eexists _, _, _, _, _. split; [apply process_spacing_run|].
  rewrite process_spacing_run. unfold pruned at 1.
  rewrite removals_pruned, filter_kept_nil. simpl.
  by rewrite app_nil_r.
Qed.

(** ** Alignment resolver *)

Lemma find_parent_last_match within boundary acc path :
  find_parent within boundary acc path
  = match last_match within (searched boundary path) with
    | Some s => Some s
    | None => acc
    end.
Proof.
  revert acc. unfold last_match.
  induction path as [|ps path IH]; intros acc; [done|]. simpl.
  destruct (is_type_opt (segment ps) boundary) eqn:Hb; simpl.
  - by destruct (is_type_opt (segment ps) within).
  - rewrite IH.
    destruct (is_type_opt (segment ps) within) eqn:Hw; simpl; [|done].
    destruct (List.filter _ (map segment (searched boundary path)))
      as [|s l] eqn:E; [done|].
    change (last (segment ps :: s :: l)) with (last (s :: l)).
    by destruct (last (s :: l)) eqn:El; [|apply last_None in El].
Qed.

Lemma last_match_none within steps :
  last_match within steps = None
  <-> forall ps, ps ∈ steps -> is_type_opt (segment ps) within = false.
Proof.
  unfold last_match. rewrite last_None. split.
  - intros E ps Hps. destruct (is_type_opt (segment ps) within) eqn:Hw; [|done].
    assert (segment ps ∈ List.filter (fun s => is_type_opt s within)
                           (map segment steps)) as Hin.
    { apply elem_of_List_filter. split; [|done].
      apply list_elem_of_fmap. by exists ps. }
    rewrite E in Hin. by apply elem_of_nil in Hin.
  - intros H. induction steps as [|ps steps IH]; [done|]. simpl.
    rewrite (H ps) by left. apply IH. intros ps' Hps'. apply H. by right.
Qed.

Lemma any_same_line_run siblings next_seg npm :
  pos_marker next_seg = Some npm ->
  Forall (fun s => is_Some (seg_pos_marker s)) siblings ->
  any_same_line siblings next_seg = Ok (on_same_line siblings npm).
Proof.
  intros Hn. induction siblings as [|sib siblings IH]; intros Hall; [done|].
  apply Forall_cons in Hall as [[spm Hs] Hall]. simpl.
  rewrite Hs, Hn. simpl.
  destruct (_ && _); [done|]. by apply IH.
Qed.

Lemma fold_max_shift (a m : Z) (l : list Z) :
  fold_right Z.max (Z.max a m) l = Z.max a (fold_right Z.max m l).
Proof. induction l as [|x l IH]; simpl; [done|]. rewrite IH. lia. Qed.

Lemma fold_max_app (m : Z) (l1 l2 : list Z) :
  fold_right Z.max (fold_right Z.max m l1) l2 = fold_right Z.max m (l1 ++ l2).
Proof.
  induction l1 as [|x l1 IH]; simpl; [done|].
  by rewrite fold_max_shift, IH.
Qed.

Lemma scan_siblings_run seg last_code siblings m :
  is_Some (pos_marker seg) ->
  Forall (fun s => is_Some (seg_pos_marker s)) siblings ->
  (forall code, last_code = Some code -> is_Some (pos_marker code)) ->
  scan_siblings seg last_code siblings m
  = Ok (fold_right Z.max m
          match last_code with
          | Some code =>
              map (fun _ => end_column code)
                  (List.filter (same_loc seg) siblings)
          | None => []
          end).
Proof.
  intros [pm Hpm] Hall Hcode. revert m.
  induction siblings as [|sib siblings IH]; intros m.
  { simpl. by destruct last_code. }
  apply Forall_cons in Hall as [[spm Hs] Hall].
  cbn [scan_siblings]. rewrite Hpm, Hs. cbn [get_pos_marker res_bind].
  cbn [List.filter]. unfold same_loc at 1. rewrite Hpm, Hs.
  cbn [fmap option_fmap option_map].
  destruct (decide (working_loc pm = working_loc spm)) as [E|E].
  - rewrite bool_decide_eq_true_2 by (by rewrite E).
    destruct last_code as [code|].
    + destruct (Hcode code eq_refl) as [cpm Hc]. rewrite Hc.
      cbn [get_pos_marker res_bind]. rewrite (IH Hall). f_equal.
      cbn [map fold_right]. unfold end_column at 2. rewrite Hc.
      rewrite <- fold_max_shift. f_equal.
      destruct (Z.gtb_spec (working_loc_after cpm (raw code)).2 m); lia.
    + cbn [res_bind]. by rewrite (IH Hall).
  - rewrite bool_decide_eq_false_2 by (intros H; apply E; congruence).
    cbn [res_bind]. by rewrite (IH Hall).
Qed.

Lemma scan_raw_segments_run raws siblings last_code m :
  Forall (fun s => is_Some (pos_marker s)) raws ->
  Forall (fun s => is_Some (seg_pos_marker s)) siblings ->
  (forall code, last_code = Some code -> is_Some (pos_marker code)) ->
  scan_raw_segments raws siblings last_code m
  = Ok (fold_right Z.max m (recorded_columns raws siblings last_code)).
Proof.
  intros Hraws Hsibs. revert last_code m.
  induction raws as [|seg raws IH]; intros last_code m Hcode; [done|].
  apply Forall_cons in Hraws as [Hseg Hraws].
  cbn [scan_raw_segments recorded_columns].
  rewrite scan_siblings_run by done. cbn [res_bind].
  rewrite (IH Hraws).
  - f_equal. apply fold_max_app.
  - intros code. destruct (is_code seg); [|by apply Hcode].
    by intros [= <-].
Qed.

Lemma spaces_succ (n : nat) :
  String.concat "" (replicate (S n) " ")
  = String " "%char (String.concat "" (replicate n " ")).
Proof. destruct n; reflexivity. Qed.

Lemma spaces_length (n : Z) : String.length (spaces n) = Z.to_nat n.
Proof.
  unfold spaces. induction (Z.to_nat n) as [|k IH]; [done|].
  rewrite spaces_succ. simpl. by rewrite IH.
Qed.

Lemma spaces_all_space (n : Z) :
  Forall (fun c => c = " "%char) (list_ascii_of_string (spaces n)).
Proof.
  unfold spaces. induction (Z.to_nat n) as [|k IH]; [constructor|].
  rewrite spaces_succ. simpl. by constructor.
Qed.

(** C7, as amended: without a segment of the [within] type among the
    searched steps the resolver returns one space; with one, and all the
    position markers in place, it returns one space when a sibling is on
    the line of the next leaf at another column, and else a run of
    [1 + m - c] spaces (none when that is not positive), [m] the largest
    recorded end column (0 without one) and [c] the working column of the
    whitespace leaf. *)
Theorem aligned_inline_spacing_spec
  (root_segment : BaseSegment) (whitespace_seg next_seg : RawSegment)
  (segment_type : string) (align_within align_boundary : option string) :
  let steps :=
    searched align_boundary (rev (path_to root_segment (Raw next_seg))) in
  ((forall ps, ps ∈ steps -> is_type_opt (segment ps) align_within = false) ->
   _determine_aligned_inline_spacing root_segment whitespace_seg next_seg
     segment_type align_within align_boundary = Ok " ")
  /\ (forall parent npm wpm,
      last_match align_within steps = Some parent ->
      pos_marker next_seg = Some npm ->
      pos_marker whitespace_seg = Some wpm ->
      Forall (fun s => is_Some (seg_pos_marker s))
             (unblocked_siblings parent segment_type align_boundary) ->
      Forall (fun s => is_Some (pos_marker s)) (raw_segments parent) ->
      let siblings := unblocked_siblings parent segment_type align_boundary in
      let count :=
        1 + max_column (recorded_columns (raw_segments parent) siblings None)
        - working_line_pos wpm in
      _determine_aligned_inline_spacing root_segment whitespace_seg next_seg
        segment_type align_within align_boundary
      = Ok (if on_same_line siblings npm then " " else spaces count)
      /\ String.length (spaces count) = Z.to_nat count
      /\ Forall (fun c => c = " "%char) (list_ascii_of_string (spaces count))).
Proof.
  intros steps. unfold _determine_aligned_inline_spacing.
  rewrite find_parent_last_match. fold steps. split.
  - intros Hnone. apply last_match_none in Hnone. by rewrite Hnone.
  - intros parent npm wpm Hlast Hn Hw Hsibs Hraws. cbv zeta.
    split; [|split; [apply spaces_length|apply spaces_all_space]].
    rewrite Hlast, (any_same_line_run _ _ npm) by done.
    cbn [res_bind]. destruct (on_same_line _ npm); [done|].
    rewrite scan_raw_segments_run by done. cbn [res_bind].
    by rewrite Hw.
Qed.

(** ** Respacing a point *)

Lemma py_eq_refl x : py_eq x x = true.
Proof. unfold py_eq. by rewrite bool_decide_eq_true_2. Qed.

Lemma distinct_leaves_spec l :
  distinct_leaves l = true ->
  NoDup l /\ (forall x y, x ∈ l -> y ∈ l -> py_eq x y = true -> x = y).
Proof.
  induction l as [|a l IH]; intros Hd; simpl in Hd.
  { split; [constructor|]. intros x y Hx. by apply elem_of_nil in Hx. }
  apply andb_true_iff in Hd as [Ha Hd].
  destruct (IH Hd) as [Hnd Heq].
  rewrite forallb_forall in Ha.
  assert (forall y, y ∈ l -> py_eq a y = false /\ py_eq y a = false) as Ha'.
  { intros y Hy. apply list_elem_of_In, Ha, andb_true_iff in Hy as [H1 H2].
    by apply negb_true_iff in H1, H2. }
  split.
  - constructor; [|done]. intros Hin. destruct (Ha' a Hin) as [H1 _].
    by rewrite py_eq_refl in H1.
  - intros x y Hx Hy E.
    apply elem_of_cons in Hx as [->|Hx]; apply elem_of_cons in Hy as [->|Hy].
    + done.
    + destruct (Ha' y Hy). congruence.
    + destruct (Ha' x Hx). congruence.
    + by apply Heq.
Qed.

Lemma py_in_distinct (buf l : list RawSegment) s :
  (forall x y, x ∈ buf -> y ∈ buf -> py_eq x y = true -> x = y) ->
  (forall e, e ∈ l -> e ∈ buf) ->
  s ∈ buf ->
  py_in s l = true <-> s ∈ l.
Proof.
  intros Heq Hsub Hs. split; [|apply py_in_elem].
  unfold py_in. rewrite existsb_exists. intros (e & He & E).
  apply list_elem_of_In in He.
  by rewrite (Heq s e Hs (Hsub e He) E).
Qed.

Lemma py_index_distinct (l : list RawSegment) x :
  (forall a b, a ∈ l -> b ∈ l -> py_eq a b = true -> a = b) ->
  NoDup l ->
  x ∈ l ->
  exists i, py_index l x = Ok i /\ l !! i = Some x
            /\ forall s, s ∈ delete i l <-> s ∈ l /\ s <> x.
Proof.
  induction l as [|e l IH]; intros Heq Hnd Hx.
  { by apply elem_of_nil in Hx. }
  apply NoDup_cons in Hnd as [He Hnd]. simpl.
  destruct (py_eq e x) eqn:E.
  - assert (e = x) as -> by (apply Heq; [left|done|done]).
    exists 0%nat. split; [done|]. split; [done|]. simpl.
    intros s. split; [|by intros [[->|?]%elem_of_cons ?]].
    intros Hs. split; [by right|]. by intros ->.
  - apply elem_of_cons in Hx as [->|Hx]; [by rewrite py_eq_refl in E|].
    destruct IH as (i & -> & Hi & Hdel); [|done|done|].
    { intros a b Ha Hb. apply Heq; by right. }
    exists (S i). split; [done|]. split; [done|]. simpl.
    intros s. rewrite !elem_of_cons, Hdel. split.
    + intros [->|[? ?]]; [|by auto]. split; [by left|]. by intros ->.
    + intros [[->|?] ?]; auto.
Qed.

(** Without a line end that stays, the loop collects the stripped
    newlines and all the whitespace, in order. *)
Lemma loop_without_line_end strip buf rb lw :
  (forall s, s ∈ buf -> is_whitespace s = false -> is_line_end s = true ->
             strip && is_type s ["newline"] = true) ->
  fold_left (spacing_step strip) buf (rb, lw)
  = (rb ++ List.filter (is_stripped strip) buf,
     lw ++ List.filter is_whitespace buf).
Proof.
  revert rb lw. induction buf as [|seg buf IH]; intros rb lw H.
  { simpl. by rewrite !app_nil_r. }
  assert (forall s, s ∈ buf -> is_whitespace s = false ->
            is_line_end s = true -> strip && is_type s ["newline"] = true)
    as H' by (intros s Hs; apply H; by right).
  cbn [fold_left List.filter].
  destruct (spacing_step_cases strip rb lw seg)
    as [[Hw ->] | [(Hw & -> & Hn & ->) | [(Hw & He & Hx & ->) | (Hw & He & ->)]]];
    fold (is_whitespace seg) in Hw.
  - assert (is_stripped strip seg = false) as ->
      by (unfold is_stripped; by rewrite Hw).
    rewrite Hw, (IH _ _ H'). by rewrite <- app_assoc.
  - assert (is_stripped true seg = true) as ->
      by (unfold is_stripped; by rewrite Hw, Hn).
    rewrite Hw, (IH _ _ H'). by rewrite <- app_assoc.
  - rewrite (H seg) in Hx; [done|by left|done|done].
  - assert (is_stripped strip seg = false) as ->.
    { unfold is_stripped. rewrite Hw. cbn [negb andb].
      destruct (strip && is_type seg ["newline"]) eqn:Hs; [|done].
      apply andb_true_iff in Hs as [_ Hn].
      unfold is_type, has_type in Hn, He. simpl in Hn, He.
      rewrite orb_false_r in Hn. by rewrite Hn in He. }
    by rewrite Hw, (IH _ _ H').
Qed.

Lemma filter_NoDup {A} (f : A -> bool) (l : list A) :
  NoDup l -> NoDup (List.filter f l).
Proof. intros H. eapply sublist_NoDup; [done|apply filter_sublist]. Qed.

(** The removal buffer and the whitespace seen last never hold a leaf of
    a buffer of distinct leaves twice, nor both hold it. *)
Lemma loop_NoDup strip buf rb lw :
  NoDup (rb ++ lw ++ buf) ->
  NoDup ((fold_left (spacing_step strip) buf (rb, lw)).1
         ++ (fold_left (spacing_step strip) buf (rb, lw)).2).
Proof.
  revert rb lw. induction buf as [|seg buf IH]; intros rb lw Hnd.
  { simpl. by rewrite app_nil_r in Hnd. }
  cbn [fold_left].
  destruct (spacing_step_cases strip rb lw seg)
    as [[_ ->] | [(_ & _ & _ & ->) | [(_ & _ & _ & ->) | (_ & _ & ->)]]];
    apply IH.
  - by rewrite <- (app_assoc lw [seg] buf).
  - rewrite <- (app_assoc rb [seg]). simpl.
    by rewrite (Permutation_middle lw buf seg).
  - rewrite <- app_assoc. simpl.
    rewrite <- (Permutation_middle lw buf seg), <- Permutation_middle in Hnd.
    by apply NoDup_cons in Hnd as [_ ?].
  - rewrite <- (Permutation_middle lw buf seg), <- Permutation_middle in Hnd.
    by apply NoDup_cons in Hnd as [_ ?].
Qed.



Lemma existsb_elem {A} (f : A -> bool) (l : list A) :
  existsb f l = true <-> exists x, x ∈ l /\ f x = true.
Proof.
  rewrite existsb_exists. split; intros (x & H1 & H2); exists x.
  - by rewrite list_elem_of_In.
  - by rewrite <- list_elem_of_In.
Qed.

(** A buffer of distinct leaves with whitespace whose pruned form has no
    line end: the first whitespace leaf is the one that is retained, and
    the only whitespace left after pruning. *)
Lemma pruned_inline_whitespace strip buf :
  distinct_leaves buf = true ->
  existsb is_whitespace buf = true ->
  existsb is_line_end (pruned strip buf) = false ->
  exists w rest,
    List.filter is_whitespace buf = w :: rest
    /\ retained strip buf = w :: rest
    /\ removals strip buf = List.filter (is_stripped strip) buf ++ rest
    /\ w ∈ pruned strip buf
    /\ (forall s, s ∈ pruned strip buf -> is_whitespace s = true -> s = w).
Proof.
  intros Hd Hws Hno.
  destruct (distinct_leaves_spec _ Hd) as [Hnd Heq].
  destruct (removals_invariant strip buf (fun s => s ∈ buf)) as [Hrem _];
    [by apply Forall_forall|].
  rewrite Forall_forall in Hrem.
  assert (forall s, s ∈ buf ->
            (py_in s (removals strip buf) = true <-> s ∈ removals strip buf))
    as Hin.
  { intros s Hs. apply (py_in_distinct buf); [done| |done].
    intros e He. by destruct (Hrem e He). }
  assert (forall s, s ∈ buf -> is_whitespace s = false ->
            is_line_end s = true -> strip && is_type s ["newline"] = true)
    as Hline.
  { intros s Hs Hw He.
    destruct (strip && is_type s ["newline"]) eqn:Hx; [done|]. exfalso.
    assert (existsb is_line_end (pruned strip buf) = true) as Hyes;
      [|congruence].
    apply existsb_elem. exists s. split; [|done].
    unfold pruned. apply elem_of_List_filter. split; [done|].
    unfold kept. apply negb_true_iff.
    destruct (py_in s (removals strip buf)) eqn:Hp; [|done].
    apply Hin in Hp; [|done]. apply Hrem in Hp as [[Hp|[-> Hp]] _].
    - unfold is_whitespace in Hw. congruence.
    - simpl in Hx. congruence. }
  pose proof (loop_without_line_end strip buf [] [] Hline) as Hloop.
  cbn [app] in Hloop.
  apply existsb_elem in Hws as (x & Hx & Hxw).
  destruct (List.filter is_whitespace buf) as [|w rest] eqn:HW.
  { assert (x ∈ List.filter is_whitespace buf) as Hxin
      by (by apply elem_of_List_filter).
    rewrite HW in Hxin. by apply elem_of_nil in Hxin. }
  assert (retained strip buf = w :: rest) as Hret
    by (unfold retained, loop_state; by rewrite Hloop).
  assert (removals strip buf = List.filter (is_stripped strip) buf ++ rest)
    as Hrm.
  { unfold removals. rewrite Hret. unfold loop_state. rewrite Hloop.
    cbn [fst tail]. destruct rest as [|w' rest]; [|done].
    simpl. by rewrite app_nil_r. }
  assert (NoDup (w :: rest)) as Hndw
    by (rewrite <- HW; by apply filter_NoDup).
  assert (forall s, s ∈ w :: rest <-> s ∈ buf /\ is_whitespace s = true)
    as HWin by (intros s; rewrite <- HW; apply elem_of_List_filter).
  exists w, rest. split; [done|]. split; [done|]. split; [done|].
  assert (w ∈ buf /\ is_whitespace w = true) as [Hwb Hww]
    by (apply HWin; left).
  split.
  - unfold pruned. apply elem_of_List_filter. split; [done|].
    unfold kept. apply negb_true_iff.
    destruct (py_in w (removals strip buf)) eqn:Hp; [|done].
    apply Hin in Hp; [|done]. rewrite Hrm in Hp.
    apply elem_of_app in Hp as [Hp|Hp].
    + apply elem_of_List_filter in Hp as [_ Hp]. unfold is_stripped in Hp.
      by rewrite Hww in Hp.
    + by apply NoDup_cons in Hndw as [? _].
  - intros s Hs Hsw. unfold pruned in Hs.
    apply elem_of_List_filter in Hs as [Hsb Hk].
    assert (s ∈ w :: rest) as Hsin by (by apply HWin).
    apply elem_of_cons in Hsin as [->|Hsin]; [done|]. exfalso.
    unfold kept in Hk. apply negb_true_iff in Hk.
    assert (py_in s (removals strip buf) = true) as Hp; [|congruence].
    apply Hin; [done|]. rewrite Hrm. apply elem_of_app. by right.
Qed.

Lemma with_space_touch pre post next_block root buffer lw w i st :
  py_first lw = Ok w ->
  py_index buffer w = Ok i ->
  "any" ∉ [pre; post] ->
  "touch" ∈ [pre; post] ->
  _handle_respace__inline_with_space pre post next_block root buffer lw st
  = Ok ((delete i buffer, [length (fix_store st)]),
        mkState (fix_store st ++ [LintFix_delete w]) (uuid_source st)).
Proof.
  intros Hf Hi Hany Htouch. unfold _handle_respace__inline_with_space.
  unfold bind, lift. rewrite Hf, Hi.
  rewrite (bool_decide_eq_false_2 _ Hany), (bool_decide_eq_true_2 _ Htouch).
  reflexivity.
Qed.


Lemma filter_none {A} (f : A -> bool) (l : list A) :
  (forall x, x ∈ l -> f x = false) -> List.filter f l = [].
Proof.
  induction l as [|x l IH]; intros H; [done|]. simpl.
  rewrite (H x) by left. apply IH. intros y Hy. apply H. by right.
Qed.



Lemma determine_constraints_keeps_strip prev_block next_block pre post strip :
  _determine_constraints prev_block next_block true = Ok (pre, post, strip) ->
  strip = true.
Proof.
  unfold _determine_constraints.
  destruct prev_block as [pb|], next_block as [nb|]; try by intros [= _ _ <-].
  destruct (common_with _ _) as [common|]; [|done]. cbn [res_bind].
  destruct (py_last common) as [parent|]; [|done]. cbn [res_bind].
  destruct (stack_spacing_configs pb !! parent) as [within|];
    [|by intros [= _ _ <-]].
  destruct (decide (within = "")); [by intros [= _ _ <-]|].
  destruct (bool_decide _).
  - intros [= _ _ <-]. by destruct (decide _).
  - destruct (list_find _ _) as [[j ?]|]; [|done].
    by destruct (_ !! j).
Qed.

(** C8, as amended: a point of a newline and a whitespace leaf, respaced
    with [strip_newlines] on, under a touch constraint on one side and any
    on neither: the newline and the whitespace are both deleted and the
    returned point is empty. *)
Theorem respace_strip_newline_touch
  self prev_block next_block root fixes st nl ws pre post strip' :
  point_segments self = [nl; ws] ->
  is_whitespace nl = false ->
  is_type nl ["newline"] = true ->
  is_whitespace ws = true ->
  is_line_end ws = false ->
  distinct_leaves [nl; ws] = true ->
  _determine_constraints prev_block next_block true = Ok (pre, post, strip') ->
  "any" ∉ [pre; post] ->
  "touch" ∈ [pre; post] ->
  respace_point self prev_block next_block root fixes true st
  = Ok ((fixes ++ [length (fix_store st); S (length (fix_store st))],
         mkReflowPoint []),
        mkState (fix_store st ++ [LintFix_delete nl; LintFix_delete ws])
                (uuid_source st)).
Proof.
  intros Hseg Hnw Hnn Hww Hwl Hd Hc Hany Htouch.
  pose proof (determine_constraints_keeps_strip _ _ _ _ _ Hc) as ->.
  assert (loop_state true [nl; ws] = ([nl], [ws])) as Hloop.
  { unfold loop_state. cbn [fold_left].
    destruct (spacing_step_cases true [] [] nl)
      as [[? _] | [(_ & _ & _ & E1) | [(_ & _ & Hx & _) | (_ & He & _)]]].
    - unfold is_whitespace in Hnw. congruence.
    - rewrite E1. cbn [app].
      destruct (spacing_step_cases true [nl] [] ws)
        as [[_ ->] | [(? & _) | [(? & _) | (? & _)]]];
        [done|unfold is_whitespace in Hww; congruence..].
    - simpl in Hx. congruence.
    - unfold is_type, has_type in Hnn, He. simpl in Hnn, He.
      rewrite orb_false_r in Hnn. by rewrite Hnn in He. }
  assert (removals true [nl; ws] = [nl]) as Hrm
    by (unfold removals, retained; by rewrite Hloop).
  assert (retained true [nl; ws] = [ws]) as Hret
    by (unfold retained; by rewrite Hloop).
  simpl in Hd. rewrite !andb_true_r in Hd.
  apply andb_true_iff in Hd as [_ Hd]. apply negb_true_iff in Hd.
  assert (pruned true [nl; ws] = [ws]) as Hpr.
  { unfold pruned. rewrite Hrm. cbn [List.filter]. unfold kept, py_in.
    cbn [existsb]. by rewrite py_eq_refl, Hd. }
  unfold respace_point, bind, lift. rewrite Hc, Hseg.
  rewrite process_spacing_run, Hpr, Hret, Hrm.
  cbn [existsb]. rewrite Hwl. cbn [orb].
  rewrite (with_space_touch pre post next_block root _ _ ws 0%nat); try done.
  - unfold ret. cbn [fix_store uuid_source delete]. simpl.
    rewrite <- app_assoc, length_app, Nat.add_1_r. reflexivity.
  - simpl. by rewrite py_eq_refl.
Qed.

Lemma existsb_false_elem {A} (f : A -> bool) (l : list A) :
  existsb f l = false -> forall x, x ∈ l -> f x = false.
Proof.
  intros H x Hx. destruct (f x) eqn:E; [|done].
  assert (existsb f l = true) by (apply existsb_elem; eauto). congruence.
Qed.

(** A buffer without whitespace and without line end goes through the
    spacing processor unchanged. *)
Lemma process_spacing_plain strip buf :
  existsb is_whitespace buf = false ->
  existsb is_line_end buf = false ->
  retained strip buf = [] /\ removals strip buf = [] /\ pruned strip buf = buf.
Proof.
  intros Hw Hl.
  pose proof (existsb_false_elem _ _ Hw) as Hw'.
  pose proof (existsb_false_elem _ _ Hl) as Hl'.
  assert (loop_state strip buf = ([], [])) as Hloop.
  { unfold loop_state. rewrite loop_without_line_end.
    - rewrite (filter_none is_whitespace) by done.
      rewrite filter_none; [done|]. intros x Hx. unfold is_stripped.
      destruct (strip && is_type x ["newline"]) eqn:Hs;
        [|by rewrite andb_false_r].
      apply andb_true_iff in Hs as [_ Hn]. specialize (Hl' x Hx).
      unfold is_line_end, is_type, has_type in Hn, Hl'. simpl in Hn, Hl'.
      rewrite orb_false_r in Hn. by rewrite Hn in Hl'.
    - intros s Hs _ He. rewrite (Hl' s Hs) in He. done. }
  assert (retained strip buf = []) as Hret
    by (unfold retained; by rewrite Hloop).
  assert (removals strip buf = []) as Hrm
    by (unfold removals; rewrite Hret; by rewrite Hloop).
  split; [done|]. split; [done|].
  unfold pruned. rewrite Hrm. apply filter_kept_nil.
Qed.

(** The search fails when no fix of the list holds the insertion. *)
Lemma find_existing_fix_none insertion fixes st :
  Forall (fun r => exists f, fix_store st !! r = Some f
                             /\ contains_insertion insertion f = false)
         fixes ->
  find_existing_fix insertion fixes st = Raise ValueError.
Proof.
  induction fixes as [|r fixes IH]; intros Hall; [done|].
  apply Forall_cons in Hall as [(f & Hr & Hf) Hall].
  simpl. unfold bind, get_fix. rewrite Hr, Hf. by apply IH.
Qed.

(** The search finds the first fix of the list that holds the insertion. *)
Lemma find_existing_fix_run insertion fixes st k r f :
  fixes !! k = Some r ->
  fix_store st !! r = Some f ->
  contains_insertion insertion f = true ->
  (forall j r', (j < k)%nat -> fixes !! j = Some r' ->
     exists f', fix_store st !! r' = Some f'
                /\ contains_insertion insertion f' = false) ->
  find_existing_fix insertion fixes st = Ok (r, st).
Proof.
  revert k. induction fixes as [|r0 fixes IH]; intros k Hk Hr Hf Hbefore.
  { done. }
  destruct k as [|k]; simpl in Hk.
  - injection Hk as ->. simpl. unfold bind, get_fix. by rewrite Hr, Hf.
  - destruct (Hbefore 0%nat r0 ltac:(lia) eq_refl) as (f' & Hr0 & Hf').
    simpl. unfold bind, get_fix. rewrite Hr0, Hf'.
    apply (IH k); try done.
    intros j r' Hj Hl. apply (Hbefore (S j)); [lia|done].
Qed.

Lemma single_is_not_touch_or_any :
  bool_decide ("touch" ∈ ["single"; "single"])
  || bool_decide ("any" ∈ ["single"; "single"]) = false.
Proof. reflexivity. Qed.

Lemma single_and_single :
  bool_decide ("single" = "single" /\ "single" = "single") = true.
Proof. reflexivity. Qed.

(** C1, as amended: a point without whitespace and without line end,
    with a block on at least one side, respaced under single on both
    sides, gets one whitespace leaf holding one space at its end.  Without
    a pending insertion next to it and with a previous block, one
    create_after fix on the last leaf of that block is added after the
    fixes passed, whatever they hold (one create_before on the first leaf
    of the next block when there is no previous block).  With a pending
    insertion next to it, the first fix of the list that holds that leaf
    gets the space in its payload, at the end for the previous block and
    at the front for the next, and no fix is added; when no fix of the
    list holds that leaf, ValueError is raised. *)
Theorem respace_single_inserts_whitespace
  self prev_block next_block root fixes strip st strip' :
  _determine_constraints prev_block next_block strip
  = Ok ("single", "single", strip') ->
  existsb is_whitespace (point_segments self) = false ->
  existsb is_line_end (point_segments self) = false ->
  let u := uuid_source st in
  let point :=
    mkReflowPoint (point_segments self ++ [WhitespaceSegment u]) in
  (List.filter is_whitespace (point_segments point) = [WhitespaceSegment u]
   /\ raw (WhitespaceSegment u) = " ")
  /\ (detect_existing_fix prev_block next_block = Ok None ->
      (forall pb seg,
         prev_block = Some pb -> py_last (block_segments pb) = Ok seg ->
         respace_point self prev_block next_block root fixes strip st
         = Ok ((fixes ++ [length (fix_store st)], point),
               mkState (fix_store st
                        ++ [mkLintFix "create_after" seg
                              (Some [WhitespaceSegment (u + 1)])])
                       (u + 2)))
      /\ (forall nb seg,
            prev_block = None -> next_block = Some nb ->
            py_first (block_segments nb) = Ok seg ->
            respace_point self prev_block next_block root fixes strip st
            = Ok ((fixes ++ [length (fix_store st)], point),
                  mkState (fix_store st
                           ++ [mkLintFix "create_before" seg
                                 (Some [WhitespaceSegment (u + 1)])])
                          (u + 2))))
  /\ (forall existing_fix insertion k r f,
        detect_existing_fix prev_block next_block
        = Ok (Some (existing_fix, insertion)) ->
        fixes !! k = Some r ->
        fix_store st !! r = Some f ->
        contains_insertion insertion f = true ->
        (forall j r', (j < k)%nat -> fixes !! j = Some r' ->
           exists f', fix_store st !! r' = Some f'
                      /\ contains_insertion insertion f' = false) ->
        exists payload,
          edit f = Some payload
          /\ respace_point self prev_block next_block root fixes strip st
             = Ok ((fixes, point),
                   mkState
                     (<[r := mkLintFix (edit_type f) (anchor f)
                               (Some (if decide (existing_fix = "before")
                                      then WhitespaceSegment (u + 1) :: payload
                                      else payload
                                           ++ [WhitespaceSegment (u + 1)]))]>
                        (fix_store st))
                     (u + 2)))
  /\ (forall existing_fix insertion,
        detect_existing_fix prev_block next_block
        = Ok (Some (existing_fix, insertion)) ->
        Forall (fun r => exists f, fix_store st !! r = Some f
                                   /\ contains_insertion insertion f = false)
               fixes ->
        respace_point self prev_block next_block root fixes strip st
        = Raise ValueError).
Proof.
  intros Hc Hw Hl u point.
  destruct (process_spacing_plain strip' _ Hw Hl) as (Hret & Hrm & Hpr).
  assert (respace_point self prev_block next_block root fixes strip st
          = bind (_handle_respace__inline_without_space
                    "single" "single" prev_block next_block
                    (point_segments self) fixes)
                 (fun '(segment_buffer, fixes, _) =>
                    ret (fixes ++ [], mkReflowPoint segment_buffer)) st)
    as ->.
  { unfold respace_point, bind at 1 2, lift. rewrite Hc.
    rewrite process_spacing_run, Hpr, Hret, Hrm, Hl. simpl.
    destruct st as [store us]. simpl. by rewrite app_nil_r. }
  unfold _handle_respace__inline_without_space.
  rewrite single_is_not_touch_or_any, single_and_single.
  split; [|split; [|split]]; cycle 3.
  { intros existing_fix insertion Hdet Hnone.
    unfold bind at 1 2 3, lift, fresh_uuid. rewrite Hdet.
    destruct fixes as [|r0 fixes']; [done|].
    unfold bind. by rewrite find_existing_fix_none. }
  - split; [|done]. simpl. rewrite List.filter_app.
    by rewrite (filter_none is_whitespace) by (by apply existsb_false_elem).
  - intros Hdet. split.
    + intros pb seg -> Hseg. unfold bind, lift, fresh_uuid.
      rewrite Hdet, Hseg. simpl. unfold ret, point, u. rewrite app_nil_r.
      by replace (uuid_source st + 1 + 1) with (uuid_source st + 2) by lia.
    + intros nb seg -> -> Hseg. unfold bind, lift, fresh_uuid.
      rewrite Hdet, Hseg. simpl. unfold ret, point, u. rewrite app_nil_r.
      by replace (uuid_source st + 1 + 1) with (uuid_source st + 2) by lia.
  - intros existing_fix insertion k r f Hdet Hk Hr Hf Hbefore.
    assert (exists e payload, edit f = Some (e :: payload)) as (e & payload & He).
    { unfold contains_insertion in Hf.
      destruct (edit f) as [[|e payload]|]; try done. eauto. }
    exists (e :: payload). split; [done|].
    assert (existing_fix = "after" \/ existing_fix = "before") as Hdir.
    { unfold detect_existing_fix in Hdet.
      destruct prev_block as [pb|].
      - destruct (py_last (block_segments pb)) as [s0|]; [|done].
        cbn [res_bind] in Hdet. destruct (pos_marker s0).
        + destruct next_block as [nb|]; [|done].
          destruct (py_first (block_segments nb)) as [s1|]; [|done].
          cbn [res_bind] in Hdet. destruct (pos_marker s1); [done|].
          injection Hdet as <- _. by right.
        + injection Hdet as <- _. by left.
      - cbn [res_bind] in Hdet. destruct next_block as [nb|]; [|done].
        destruct (py_first (block_segments nb)) as [s1|]; [|done].
        cbn [res_bind] in Hdet. destruct (pos_marker s1); [done|].
        injection Hdet as <- _. by right. }
    unfold bind at 1 2 3, lift, fresh_uuid at 1. rewrite Hdet.
    destruct fixes as [|r0 fixes']; [done|].
    set (st1 := mkState (fix_store st) (uuid_source st + 1)).
    unfold bind at 1 2.
    rewrite (find_existing_fix_run insertion (r0 :: fixes') st1 k r f);
      try done.
    unfold bind, get_fix, fresh_uuid, set_fix_edit, ret. simpl.
    rewrite Hr, He.
    unfold point, u.
    destruct Hdir as [-> | ->]; simpl; rewrite Hr; simpl;
      rewrite !app_nil_r;
      by replace (uuid_source st + 1 + 1) with (uuid_source st + 2) by lia.
Qed.

(** ** Trimming a depth info *)

Lemma from_raw_and_stack_well_formed raw stack :
  well_formed (from_raw_and_stack hash raw stack).
Proof.
  split; [apply from_raw_and_stack_consistent|]. simpl.
  by rewrite !length_map.
Qed.

Lemma py_slice_to_minus {A} (l : list A) (amount : Z) :
  0 < amount ->
  py_slice_to l (- amount) = take (length l - Z.to_nat amount) l.
Proof.
  intros H. unfold py_slice_to.
  destruct (Z.ltb_spec (- amount) 0); [|lia]. f_equal. lia.
Qed.

Lemma py_slice_from_minus {A} (l : list A) (amount : Z) :
  0 < amount ->
  py_slice_from l (- amount) = drop (length l - Z.to_nat amount) l.
Proof.
  intros H. unfold py_slice_from.
  destruct (Z.ltb_spec (- amount) 0); [|lia]. f_equal. lia.
Qed.

Lemma list_to_set_take_drop (l : list Z) (n : nat) :
  NoDup l ->
  (list_to_set l : gset Z) ∖ list_to_set (drop n l) = list_to_set (take n l).
Proof.
  intros Hnd. rewrite <- (take_drop n l) in Hnd at 1.
  apply NoDup_app in Hnd as (_ & Hdisj & _).
  apply set_eq. intros x.
  rewrite elem_of_difference, !elem_of_list_to_set.
  rewrite <- (take_drop n l) at 1. rewrite elem_of_app.
  specialize (Hdisj x). clear -Hdisj. tauto.
Qed.

Lemma trim_in_range (d : DepthInfo) (amount : Z) :
  well_formed d ->
  NoDup (stack_hashes d) ->
  0 <= amount <= stack_depth d ->
  well_formed (trim d amount)
  /\ stack_depth (trim d amount) = stack_depth d - amount
  /\ stack_hashes (trim d amount)
     = take (Z.to_nat (stack_depth d - amount)) (stack_hashes d)
  /\ NoDup (stack_hashes (trim d amount)).
Proof.
  intros ([Hset Hdepth] & Hct & Hpos) Hnd Hamount. unfold trim.
  destruct (Z.eqb_spec amount 0) as [->|Hne].
  { split; [done|]. split; [lia|]. split; [|done].
    rewrite Z.sub_0_r, Hdepth, Nat2Z.id. by rewrite firstn_all. }
  assert (0 < amount) as Hpos' by lia.
  assert (Z.to_nat (stack_depth d - amount)
          = (length (stack_hashes d) - Z.to_nat amount)%nat) as Hn by lia.
  cbn [stack_depth stack_hashes stack_hash_set stack_class_types
       stack_positions].
  rewrite !py_slice_to_minus, py_slice_from_minus by done.
  rewrite Hn. split; [|split; [done|split; [done|]]].
  - split; [split|]; cbn [stack_depth stack_hashes stack_hash_set
                          stack_class_types stack_positions].
    + rewrite Hset. by apply list_to_set_take_drop.
    + rewrite length_take. lia.
    + rewrite !length_take, Hct, Hpos. lia.
  - eapply sublist_NoDup; [exact Hnd|]. apply sublist_take.
Qed.

(** X1: trimming a well-formed depth info with distinct hashes by an
    amount between 0 and its depth gives a well-formed depth info of the
    depth less the amount, whose hashes are the first ones of the
    original, in order and still distinct. *)
Theorem trim_well_formed (d : DepthInfo) (amount : Z) :
  well_formed d ->
  NoDup (stack_hashes d) ->
  0 <= amount <= stack_depth d ->
  well_formed (trim d amount)
  /\ stack_depth (trim d amount) = stack_depth d - amount
  /\ stack_hashes (trim d amount)
     = take (Z.to_nat (stack_depth d - amount)) (stack_hashes d)
  /\ NoDup (stack_hashes (trim d amount)).
Proof. apply trim_in_range. Qed.

(** X2: trimming by more than the depth is not refused: the tuples come
    out empty and the depth negative. *)
Theorem trim_beyond_depth (d : DepthInfo) (amount : Z) :
  well_formed d ->
  stack_depth d < amount ->
  stack_hashes (trim d amount) = []
  /\ stack_class_types (trim d amount) = []
  /\ stack_positions (trim d amount) = []
  /\ stack_depth (trim d amount) < 0.
Proof.
  intros ([Hset Hdepth] & Hct & Hpos) Hamount. unfold trim.
  destruct (Z.eqb_spec amount 0) as [->|Hne]; [lia|].
  cbn [stack_depth stack_hashes stack_class_types stack_positions].
  rewrite !py_slice_to_minus by lia.
  rewrite Hct, Hpos.
  replace (length (stack_hashes d) - Z.to_nat amount)%nat with 0%nat by lia.
  repeat split; lia.
Qed.

Lemma take_take_minus {A} (l : list A) (a b : nat) :
  (a + b <= length l)%nat ->
  take (length (take (length l - a) l) - b) (take (length l - a) l)
  = take (length l - (a + b)) l.
Proof.
  intros H. rewrite length_take, take_take. f_equal. lia.
Qed.

(** X3: two trims in a row are one trim by the sum, for amounts that are
    not negative and together at most the depth. *)
Theorem trim_trim (d : DepthInfo) (a b : Z) :
  well_formed d ->
  0 <= a -> 0 <= b -> a + b <= stack_depth d ->
  trim (trim d a) b = trim d (a + b).
Proof.
  intros ([Hset Hdepth] & Hct & Hpos) Ha Hb Hab.
  destruct (Z.eq_dec a 0) as [->|Hna]; [done|].
  destruct (Z.eq_dec b 0) as [->|Hnb]; [by rewrite Z.add_0_r|].
  unfold trim.
  destruct (Z.eqb_spec a 0) as [|_]; [done|].
  destruct (Z.eqb_spec b 0) as [|_]; [done|].
  destruct (Z.eqb_spec (a + b) 0) as [|_]; [lia|].
  cbn [stack_depth stack_hashes stack_hash_set stack_class_types
       stack_positions].
  rewrite !py_slice_to_minus, !py_slice_from_minus by lia.
  assert (Z.to_nat (a + b) = (Z.to_nat a + Z.to_nat b)%nat) as -> by lia.
  rewrite !take_take_minus by lia.
  f_equal; [lia|].
  set (l := stack_hashes d). set (na := Z.to_nat a). set (nb := Z.to_nat b).
  assert (na + nb <= length l)%nat as Hlen by (unfold l, na, nb; lia).
  rewrite length_take.
  replace ((length l - na) `min` length l - nb)%nat
    with (length l - (na + nb))%nat by lia.
  assert (drop (length l - (na + nb)) l
          = drop (length l - (na + nb)) (take (length l - na) l)
            ++ drop (length l - na) l) as ->.
  { symmetry. apply drop_take_drop. lia. }
  rewrite list_to_set_app_L. apply set_eq. intros x.
  rewrite !elem_of_difference, elem_of_union. clear. tauto.
Qed.

(** X4: a well-formed depth info with distinct hashes and its trim by
    less than the depth have the hashes of the trim in common, from
    either side. *)
Theorem common_with_trim (d : DepthInfo) (amount : Z) :
  well_formed d ->
  NoDup (stack_hashes d) ->
  0 <= amount < stack_depth d ->
  common_with d (trim d amount) = Ok (stack_hashes (trim d amount))
  /\ common_with (trim d amount) d = Ok (stack_hashes (trim d amount)).
Proof.
  intros Hwf Hnd Hamount.
  destruct (trim_in_range d amount Hwf Hnd ltac:(lia))
    as ((Hcons & _) & _ & Hh & Hndt).
  destruct Hwf as ([Hset Hdepth] & _).
  set (n := Z.to_nat (stack_depth d - amount)) in *.
  assert (stack_hashes (trim d amount) <> []) as Hne.
  { rewrite Hh. intros E. apply (f_equal length) in E.
    rewrite length_take in E. simpl in E. lia. }
  split.
  - apply (common_with_split d (trim d amount) _
             (drop n (stack_hashes d)) []); try done.
    + by rewrite Hh, take_drop.
    + by rewrite app_nil_r.
    + intros x _ Hx. by apply elem_of_nil in Hx.
  - apply (common_with_split (trim d amount) d _
             [] (drop n (stack_hashes d))); try done.
    + by rewrite app_nil_r.
    + by rewrite Hh, take_drop.
    + intros x Hx. by apply elem_of_nil in Hx.
Qed.

(** ** The depth map *)

Lemma init_fold_lookup (l : list (RawSegment * list PathStep))
      (infos : gmap Z DepthInfo) (u : Z) :
  fold_left
    (fun infos x => <[uuid x.1 := from_raw_and_stack hash x.1 x.2]> infos)
    l infos !! u
  = match last (List.filter (fun x => uuid x.1 =? u) l) with
    | Some x => Some (from_raw_and_stack hash x.1 x.2)
    | None => infos !! u
    end.
Proof.
  revert infos. induction l as [|x l IH]; intros infos; [done|].
  cbn [fold_left List.filter]. rewrite IH.
  destruct (Z.eqb_spec (uuid x.1) u) as [E|E].
  - destruct (List.filter _ l) as [|y f'] eqn:Hf.
    + simpl. by rewrite E, lookup_insert_eq.
    + change (last (x :: y :: f')) with (last (y :: f')).
      by destruct (last (y :: f')) eqn:El; [|apply last_None in El].
  - destruct (last _); [done|]. by rewrite lookup_insert_ne.
Qed.

Lemma filter_unique_key {A} (f : A -> Z) (l : list A) (x : A) :
  NoDup (map f l) -> x ∈ l ->
  List.filter (fun y => f y =? f x) l = [x].
Proof.
  induction l as [|y l IH]; intros Hnd Hx; [by apply elem_of_nil in Hx|].
  simpl in Hnd. apply NoDup_cons in Hnd as [Hy Hnd]. simpl.
  destruct (Z.eqb_spec (f y) (f x)) as [E|E].
  - assert (List.filter (fun y0 => f y0 =? f x) l = []) as ->.
    { apply filter_none. intros z Hz. apply Z.eqb_neq. intros Ez.
      apply Hy. rewrite E, <- Ez. apply list_elem_of_fmap. by exists z. }
    apply elem_of_cons in Hx as [->|Hx]; [done|].
    exfalso. apply Hy. rewrite E. apply list_elem_of_fmap. by exists x.
  - apply elem_of_cons in Hx as [->|Hx]; [done|]. by apply IH.
Qed.

Lemma init_lookup_unique (l : list (RawSegment * list PathStep)) r st :
  NoDup (map (fun x => uuid x.1) l) ->
  (r, st) ∈ l ->
  get_depth_info (DepthMap_init hash l) r = inr (from_raw_and_stack hash r st).
Proof.
  intros Hnd Hin. unfold get_depth_info, DepthMap_init. simpl.
  rewrite init_fold_lookup.
  pose proof (filter_unique_key (fun x => uuid x.1) l (r, st) Hnd Hin) as Hf.
  cbn [fst] in Hf. by rewrite Hf.
Qed.

Lemma init_lookup_missing (l : list (RawSegment * list PathStep)) raw :
  uuid raw ∉ map (fun x => uuid x.1) l ->
  get_depth_info (DepthMap_init hash l) raw = inl (KeyError (uuid raw)).
Proof.
  intros Hnin. unfold get_depth_info, DepthMap_init. simpl.
  rewrite init_fold_lookup, filter_none; [by rewrite lookup_empty|].
  intros x Hx. apply Z.eqb_neq. intros E. apply Hnin.
  apply list_elem_of_fmap. by exists x.
Qed.

Lemma init_lookup_found (l : list (RawSegment * list PathStep)) raw d :
  get_depth_info (DepthMap_init hash l) raw = inr d ->
  uuid raw ∈ map (fun x => uuid x.1) l.
Proof.
  intros Hget. destruct (decide (uuid raw ∈ map (fun x => uuid x.1) l));
    [done|].
  by rewrite init_lookup_missing in Hget.
Qed.

(** X5: in the depth map of a tree whose leaves have distinct uuids,
    every leaf is found under its uuid with the depth info of its own
    path. *)
Theorem from_parent_lookup (root : BaseSegment) (r : RawSegment)
  (stack : list PathStep) :
  NoDup (map (fun x => uuid x.1) (raw_segments_with_ancestors root)) ->
  (r, stack) ∈ raw_segments_with_ancestors root ->
  get_depth_info (from_parent hash root) r
  = inr (from_raw_and_stack hash r stack).
Proof. apply init_lookup_unique. Qed.

(** X6: the lookup of a segment in the depth map of a tree raises the key
    error, with the uuid of the segment, exactly when no leaf of the tree
    has that uuid. *)
Theorem from_parent_lookup_missing (root : BaseSegment) (raw : RawSegment) :
  (uuid raw ∉ map (fun x => uuid x.1) (raw_segments_with_ancestors root) ->
   get_depth_info (from_parent hash root) raw = inl (KeyError (uuid raw)))
  /\ (forall e, get_depth_info (from_parent hash root) raw = inl e ->
      e = KeyError (uuid raw)
      /\ uuid raw ∉ map (fun x => uuid x.1) (raw_segments_with_ancestors root)).
Proof.
  split; [apply init_lookup_missing|].
  intros e He. unfold from_parent in He.
  destruct (decide (uuid raw
                    ∈ map (fun x => uuid x.1) (raw_segments_with_ancestors root)))
    as [Hin|Hnin].
  - exfalso. unfold get_depth_info, DepthMap_init in He. simpl in He.
    rewrite init_fold_lookup in He.
    apply list_elem_of_fmap in Hin as (x & Hu & Hx).
    assert (x ∈ List.filter (fun y => uuid y.1 =? uuid raw)
                            (raw_segments_with_ancestors root)) as Hf.
    { apply elem_of_List_filter. split; [done|]. by apply Z.eqb_eq. }
    destruct (List.filter _ _) as [|y f'] eqn:E; [by apply elem_of_nil in Hf|].
    by destruct (last (y :: f')) eqn:El; [|apply last_None in El].
  - split; [|done]. rewrite init_lookup_missing in He by done.
    by injection He as <-.
Qed.

(** X7: when the parser's [path_to] gives, for the leaves of a tree, the
    paths of the leaf enumeration, the depth map built from the leaves and
    the root is the depth map built from the parent. *)
Theorem from_raws_and_root_from_parent (root : BaseSegment) :
  (forall r stack, (r, stack) ∈ raw_segments_with_ancestors root ->
                   path_to root (Raw r) = stack) ->
  from_raws_and_root (map fst (raw_segments_with_ancestors root)) root
  = from_parent hash root.
Proof.
  intros Hpath. unfold from_raws_and_root, from_parent. f_equal.
  rewrite map_map.
  induction (raw_segments_with_ancestors root) as [|[r st] l IH]; [done|].
  simpl. rewrite (Hpath r st) by left. f_equal.
  apply IH. intros r' st' Hin. apply Hpath. by right.
Qed.

(** X8: copying the depth info of an anchor that is in the map stores its
    trim under the uuid of the new segment and leaves the other entries as
    they are; repeated for a new segment other than the anchor, the call
    changes nothing more.  With an anchor that is not in the map the key
    error of the lookup comes back. *)
Theorem copy_depth_info_spec (m : DepthMap) (anchor new_segment : RawSegment)
  (amount : Z) :
  (forall e, get_depth_info m anchor = inl e ->
             copy_depth_info m anchor new_segment amount
             = inl (KeyError (uuid anchor)))
  /\ (forall d, get_depth_info m anchor = inr d ->
      exists m',
        copy_depth_info m anchor new_segment amount = inr m'
        /\ get_depth_info m' new_segment = inr (trim d amount)
        /\ (forall other, uuid other <> uuid new_segment ->
                          get_depth_info m' other = get_depth_info m other)
        /\ (uuid new_segment <> uuid anchor ->
            copy_depth_info m' anchor new_segment amount = inr m')).
Proof.
  unfold copy_depth_info, get_depth_info. split.
  - intros e. by destruct (depth_infos m !! uuid anchor).
  - intros d Hd. destruct (depth_infos m !! uuid anchor) as [d'|] eqn:E;
      [|done]. injection Hd as ->.
    eexists. split; [reflexivity|]. cbn [depth_infos]. split; [|split].
    + by rewrite lookup_insert_eq.
    + intros other Hne. by rewrite lookup_insert_ne.
    + intros Hne. rewrite lookup_insert_ne, E by done.
      by rewrite insert_insert_eq.
Qed.

(** ** Blocks from the configuration *)

Lemma spacing_within_step_within configs x :
  spacing_within_step configs x
  = match within_of x.2 with
    | Some w => <[x.1 := w]> configs
    | None => configs
    end.
Proof.
  unfold spacing_within_step, within_of.
  destruct (config_spacing_within _) as [w|]; [|done].
  by destruct (decide (w = "")).
Qed.

Lemma spacing_within_fold (pairs : list (Z * list string))
      (configs : gmap Z string) (h : Z) :
  fold_left spacing_within_step pairs configs !! h
  = match last (List.filter
                  (fun x => (x.1 =? h) && bool_decide (is_Some (within_of x.2)))
                  pairs) with
    | Some x => within_of x.2
    | None => configs !! h
    end.
Proof.
  revert configs. induction pairs as [|x pairs IH]; intros configs; [done|].
  cbn [fold_left List.filter]. rewrite IH, spacing_within_step_within.
  destruct (within_of x.2) as [w|] eqn:Hw.
  - rewrite (bool_decide_eq_true_2 (is_Some (Some w))) by eauto.
    rewrite andb_true_r.
    destruct (Z.eqb_spec x.1 h) as [E|E].
    + destruct (List.filter _ pairs) as [|y f'] eqn:Hf.
      * simpl. by rewrite E, lookup_insert_eq, Hw.
      * change (last (x :: y :: f')) with (last (y :: f')).
        by destruct (last (y :: f')) eqn:El; [|apply last_None in El].
    + destruct (last _); [done|]. by rewrite lookup_insert_ne.
  - rewrite (bool_decide_eq_false_2 (is_Some None)) by (by intros [? ?]).
    by rewrite andb_false_r.
Qed.

Lemma from_config_override_source (segments : list RawSegment)
      (d : DepthInfo) h w :
  stack_spacing_configs (from_config segments d) !! h = Some w ->
  w <> ""
  /\ exists i cts,
      stack_hashes d !! i = Some h
      /\ stack_class_types d !! i = Some cts
      /\ config_spacing_within (get_block_config (list_to_set cts) None)
         = Some w.
Proof.
  cbn [from_config stack_spacing_configs].
  rewrite spacing_within_fold, lookup_empty.
  destruct (last _) as [x|] eqn:El; [|done]. intros Hw.
  apply last_Some_elem_of, elem_of_List_filter in El as [Hx Hc].
  apply andb_true_iff in Hc as [Hh _]. apply Z.eqb_eq in Hh.
  unfold within_of in Hw.
  destruct (config_spacing_within _) as [w'|] eqn:Hcfg; [|done].
  destruct (decide (w' = "")); [done|]. injection Hw as ->.
  split; [done|].
  apply list_elem_of_lookup in Hx as [i Hi].
  apply lookup_zip_with_Some in Hi as (a & b & -> & Ha & Hb).
  simpl in *. subst. by exists i, b.
Qed.

Lemma from_config_override_at (segments : list RawSegment) (d : DepthInfo)
      i h cts :
  NoDup (stack_hashes d) ->
  stack_hashes d !! i = Some h ->
  stack_class_types d !! i = Some cts ->
  stack_spacing_configs (from_config segments d) !! h = within_of cts.
Proof.
  cbn [from_config stack_spacing_configs].
  intros Hnd Hh Hc. rewrite spacing_within_fold, lookup_empty.
  assert (forall x, x ∈ zip (stack_hashes d) (stack_class_types d) ->
                    x.1 = h -> x = (h, cts)) as Honly.
  { intros [h' c'] Hx Hh'. simpl in Hh'. subst h'.
    apply list_elem_of_lookup in Hx as [j Hj].
    apply lookup_zip_with_Some in Hj as (a & b & [= <- <-] & Ha & Hb).
    assert (j = i) as -> by (eapply NoDup_lookup; eauto).
    congruence. }
  destruct (last _) as [x|] eqn:El.
  + apply last_Some_elem_of, elem_of_List_filter in El as [Hx Hcond].
    apply andb_true_iff in Hcond as [Hxh _]. apply Z.eqb_eq in Hxh.
    by rewrite (Honly x Hx Hxh).
  + apply last_None in El.
    destruct (within_of cts) as [w|] eqn:Hw; [|done]. exfalso.
    assert ((h, cts) ∈ List.filter
              (fun x => (x.1 =? h) && bool_decide (is_Some (within_of x.2)))
              (zip (stack_hashes d) (stack_class_types d))) as Hin.
    { apply elem_of_List_filter. split.
      - apply list_elem_of_lookup. exists i.
        apply lookup_zip_with_Some. by exists h, cts.
      - simpl. rewrite Z.eqb_refl, Hw.
        by rewrite bool_decide_eq_true_2 by eauto. }
    rewrite El in Hin. by apply elem_of_nil in Hin.
Qed.

(** X9: every override that a block from the configuration holds is a
    value of [spacing_within] that is not empty, configured for the class
    types of an ancestor of the stack with that hash; and with distinct
    hashes, the override under the hash of an ancestor is the one of the
    class types of that ancestor, none when that is missing or empty. *)
Theorem from_config_overrides (segments : list RawSegment) (d : DepthInfo) :
  (forall h w,
     stack_spacing_configs (from_config segments d) !! h = Some w ->
     w <> ""
     /\ exists i cts,
         stack_hashes d !! i = Some h
         /\ stack_class_types d !! i = Some cts
         /\ config_spacing_within (get_block_config (list_to_set cts) None)
            = Some w)
  /\ (NoDup (stack_hashes d) ->
      forall i h cts,
        stack_hashes d !! i = Some h ->
        stack_class_types d !! i = Some cts ->
        stack_spacing_configs (from_config segments d) !! h = within_of cts).
Proof.
  split.
  - apply from_config_override_source.
  - intros Hnd i h cts. by apply from_config_override_at.
Qed.

Lemma NoDup_map_inj {A} (f : A -> Z) (l : list A) x y :
  NoDup (map f l) -> x ∈ l -> y ∈ l -> f x = f y -> x = y.
Proof.
  induction l as [|a l IH]; intros Hnd Hx Hy E; [by apply elem_of_nil in Hx|].
  simpl in Hnd. apply NoDup_cons in Hnd as [Ha Hnd].
  apply elem_of_cons in Hx as [->|Hx]; apply elem_of_cons in Hy as [->|Hy].
  - done.
  - exfalso. apply Ha. rewrite E. apply list_elem_of_fmap. by exists y.
  - exfalso. apply Ha. rewrite <- E. apply list_elem_of_fmap. by exists x.
  - by apply IH.
Qed.

(** The override that a block built for a leaf of the tree holds under a
    hash of its stack is the one of the class types of the branch with
    that hash. *)
Lemma from_config_tree_override root segments r st ps :
  NoDup (branch_hashes root) ->
  (r, st) ∈ raw_segments_with_ancestors root ->
  ps ∈ st ->
  stack_spacing_configs
    (from_config segments (from_raw_and_stack hash r st))
  !! hash (segment ps)
  = within_of (seg_class_types (segment ps)).
Proof.
  intros Hnd Hin Hps.
  apply list_elem_of_lookup in Hps as [i Hi].
  apply (from_config_override_at _ _ i).
  - apply (path_hashes_NoDup root (r, st) Hnd Hin).
  - simpl. by rewrite list_lookup_fmap, Hi.
  - simpl. by rewrite list_lookup_fmap, Hi.
Qed.

(** X10: for blocks built from the configuration for two leaves of one
    tree whose branches have distinct hashes, the override of the last
    common ancestor is the same in the map of either block. *)
Theorem from_config_common_override
  root raw_a stack_a raw_b stack_b segments_a segments_b :
  is_branch root = true ->
  NoDup (branch_hashes root) ->
  (raw_a, stack_a) ∈ raw_segments_with_ancestors root ->
  (raw_b, stack_b) ∈ raw_segments_with_ancestors root ->
  let block_a := from_config segments_a (from_raw_and_stack hash raw_a stack_a) in
  let block_b := from_config segments_b (from_raw_and_stack hash raw_b stack_b) in
  exists common parent,
    common_with (depth_info block_a) (depth_info block_b) = Ok common
    /\ last common = Some parent
    /\ stack_spacing_configs block_a !! parent
       = stack_spacing_configs block_b !! parent.
Proof.
  intros Hbr Hnd Ha Hb block_a block_b.
  destruct (same_tree_common root _ _ Hbr Hnd Ha Hb)
    as (p & r1 & r2 & Hne & (E1 & E2 & Hp & Hd) & Hab & _).
  cbn [fst snd] in *.
  destruct (last p) as [parent|] eqn:Hlast; [|by apply last_None in Hlast].
  exists p, parent. split; [exact Hab|]. split; [done|].
  apply last_Some_elem_of in Hlast.
  assert (parent ∈ hashes_of stack_a) as Hina
    by (rewrite E1; apply elem_of_app; by left).
  assert (parent ∈ hashes_of stack_b) as Hinb
    by (rewrite E2; apply elem_of_app; by left).
  apply list_elem_of_fmap in Hina as (psa & -> & Hpsa).
  apply list_elem_of_fmap in Hinb as (psb & Hh & Hpsb).
  assert (segment psa = segment psb) as Hseg.
  { apply (NoDup_map_inj hash (branches root)); try done.
    - apply (path_steps_in_branches root raw_a stack_a Ha psa Hpsa).
    - apply (path_steps_in_branches root raw_b stack_b Hb psb Hpsb). }
  unfold block_a, block_b.
  rewrite (from_config_tree_override root segments_a raw_a stack_a psa)
    by done.
  rewrite Hh.
  rewrite (from_config_tree_override root segments_b raw_b stack_b psb)
    by done.
  by rewrite Hseg.
Qed.

(** ** Errors and bounds of the constraint resolver *)

Lemma last_take_elem (l : list Z) (n : nat) (x : Z) :
  last (take n l) = Some x -> x ∈ l.
Proof.
  intros H. apply last_Some_elem_of in H.
  by apply (subseteq_take n l).
Qed.

(** X11: with both blocks present, an override on the last common
    ancestor that is neither empty nor touch nor inline makes the resolver
    raise NotImplementedError, for a previous block with a well-formed
    depth info. *)
Theorem determine_constraints_unknown_override
  (pb nb : ReflowBlock) (strip_newlines : bool) common parent within :
  well_formed (depth_info pb) ->
  common_with (depth_info pb) (depth_info nb) = Ok common ->
  last common = Some parent ->
  stack_spacing_configs pb !! parent = Some within ->
  within <> "" -> within <> "touch" -> within <> "inline" ->
  _determine_constraints (Some pb) (Some nb) strip_newlines
  = Raise NotImplementedError.
Proof.
  intros (_ & Hct & _) Hc Hl Hw Hne Hnt Hni.
  unfold _determine_constraints. rewrite Hc. cbn [res_bind].
  unfold py_last. rewrite Hl. cbn [res_bind]. rewrite Hw.
  destruct (decide (within = "")); [done|].
  rewrite bool_decide_eq_false_2.
  2:{ intros [->|[->|?%elem_of_nil]%elem_of_cons]%elem_of_cons; done. }
  assert (parent ∈ stack_hashes (depth_info pb)) as Hin.
  { unfold common_with in Hc. destruct (decide _); [done|].
    injection Hc as <-. by eapply last_take_elem. }
  destruct (list_find (fun h => h = parent) (stack_hashes (depth_info pb)))
    as [[i h]|] eqn:Hf.
  - apply list_find_Some in Hf as (Hi & _ & _).
    apply lookup_lt_Some in Hi. rewrite <- Hct in Hi.
    destruct (lookup_lt_is_Some_2 _ _ Hi) as [c ->]. done.
  - apply list_find_None in Hf. rewrite Forall_forall in Hf.
    by destruct (Hf parent Hin).
Qed.

(** X12: the resolver raises AssertionError exactly when both blocks are
    present and no hash of the stack of the next block is in the set of
    the previous block. *)
Theorem determine_constraints_assertion
  (prev_block next_block : option ReflowBlock) (strip_newlines : bool) :
  _determine_constraints prev_block next_block strip_newlines
  = Raise AssertionError
  <-> exists pb nb,
      prev_block = Some pb /\ next_block = Some nb
      /\ stack_hash_set (depth_info pb)
         ∩ list_to_set (stack_hashes (depth_info nb)) = ∅.
Proof.
  unfold _determine_constraints. split.
  - destruct prev_block as [pb|], next_block as [nb|]; try done.
    intros H. exists pb, nb. split; [done|]. split; [done|].
    unfold common_with in H. destruct (decide _) as [E|E]; [done|].
    exfalso. cbn [res_bind] in H.
    unfold py_last in H.
    destruct (last _) as [parent|]; cbn [res_bind] in H; [|done].
    destruct (stack_spacing_configs pb !! parent) as [w|]; [|done].
    destruct (decide (w = "")); [done|].
    destruct (bool_decide _); [done|].
    destruct (list_find _ _) as [[j ?]|]; [|done].
    by destruct (_ !! j).
  - intros (pb & nb & -> & -> & E). unfold common_with.
    by destruct (decide _).
Qed.

(** X13: whenever the resolver returns, a side whose block says any is
    any, every other side is what its block says (single without a block)
    or touch, and a strip flag that was set is set. *)
Theorem determine_constraints_bounds
  (prev_block next_block : option ReflowBlock) (strip_newlines : bool)
  pre post strip :
  _determine_constraints prev_block next_block strip_newlines
  = Ok (pre, post, strip) ->
  (pre = default_pre prev_block \/ pre = "touch")
  /\ (post = default_post next_block \/ post = "touch")
  /\ (default_pre prev_block = "any" -> pre = "any")
  /\ (default_post next_block = "any" -> post = "any")
  /\ (strip_newlines = true -> strip = true).
Proof.
  unfold _determine_constraints, default_pre, default_post.
  assert (forall c, (raise_to_touch c = c \/ raise_to_touch c = "touch")
                    /\ (c = "any" -> raise_to_touch c = "any")) as Hraise.
  { intros c. unfold raise_to_touch.
    destruct (decide (c = "any")); split; auto; by intros. }
  destruct prev_block as [pb|], next_block as [nb|];
    try (intros [= <- <- <-]; by auto 10).
  destruct (common_with _ _) as [common|]; [|done]. cbn [res_bind].
  destruct (py_last common) as [parent|]; [|done]. cbn [res_bind].
  destruct (stack_spacing_configs pb !! parent) as [w|];
    [|intros [= <- <- <-]; by auto 10].
  destruct (decide (w = "")); [intros [= <- <- <-]; by auto 10|].
  destruct (bool_decide _).
  - intros [= <- <- <-].
    destruct (Hraise (spacing_after pb)), (Hraise (spacing_before nb)).
    split_and!; try done. intros ->. by destruct (decide _).
  - destruct (list_find _ _) as [[j ?]|]; [|done]. by destruct (_ !! j).
Qed.

(** ** What the spacing processor leaves *)

Lemma loop_strips strip buf rb lw s :
  s ∈ buf -> is_whitespace s = false -> strip = true ->
  is_type s ["newline"] = true ->
  s ∈ (fold_left (spacing_step strip) buf (rb, lw)).1.
Proof.
  revert rb lw. induction buf as [|seg buf IH]; intros rb lw Hs Hw -> Hn.
  { by apply elem_of_nil in Hs. }
  cbn [fold_left].
  apply elem_of_cons in Hs as [->|Hs].
  - destruct (spacing_step_cases true rb lw seg)
      as [[Hw' _] | [(_ & _ & _ & ->) | [(_ & _ & Hx & _) | (_ & He & _)]]].
    + unfold is_whitespace in Hw. congruence.
    + apply loop_removal_grows, elem_of_app. right. left.
    + simpl in Hx. congruence.
    + unfold is_type, has_type in Hn, He. simpl in Hn, He.
      rewrite orb_false_r in Hn. by rewrite Hn in He.
  - destruct (spacing_step_cases true rb lw seg)
      as [[_ ->] | [(_ & _ & _ & ->) | [(_ & _ & _ & ->) | (_ & _ & ->)]]];
      by apply IH.
Qed.

Lemma loop_keeps_track strip buf rb lw s :
  s ∈ lw \/ (s ∈ buf /\ is_whitespace s = true) ->
  s ∈ (fold_left (spacing_step strip) buf (rb, lw)).1
  \/ s ∈ (fold_left (spacing_step strip) buf (rb, lw)).2.
Proof.
  revert rb lw. induction buf as [|seg buf IH]; intros rb lw Hs.
  { destruct Hs as [Hs|[Hs _]]; [by right|by apply elem_of_nil in Hs]. }
  cbn [fold_left].
  assert (s ∈ lw \/ (s = seg /\ is_whitespace s = true)
          \/ (s ∈ buf /\ is_whitespace s = true)) as Hcases.
  { destruct Hs as [?|[[->|?]%elem_of_cons ?]]; auto. }
  clear Hs.
  destruct (spacing_step_cases strip rb lw seg)
    as [[Hw ->] | [(Hw & -> & Hn & ->) | [(Hw & He & Hx & ->) | (Hw & He & ->)]]].
  - apply IH. destruct Hcases as [?|[[-> _]|?]]; auto.
    + left. apply elem_of_app. by left.
    + left. apply elem_of_app. right. left.
  - apply IH. destruct Hcases as [?|[[-> Hs]|?]]; auto.
    unfold is_whitespace in Hs. congruence.
  - destruct Hcases as [Hs|[[-> Hs]|Hs]].
    + left. apply loop_removal_grows, elem_of_app. by right.
    + unfold is_whitespace in Hs. congruence.
    + apply IH. by right.
  - apply IH. destruct Hcases as [?|[[-> Hs]|?]]; auto.
    unfold is_whitespace in Hs. congruence.
Qed.

Lemma loop_nothing_removed strip buf rb lw :
  (fold_left (spacing_step strip) buf (rb, lw)).1 = [] ->
  (fold_left (spacing_step strip) buf (rb, lw)).2
  = lw ++ List.filter is_whitespace buf.
Proof.
  revert rb lw. induction buf as [|seg buf IH]; intros rb lw Hrb.
  { simpl. by rewrite app_nil_r. }
  cbn [fold_left List.filter] in *.
  assert (forall x rb' lw', x ∈ rb' ->
            (fold_left (spacing_step strip) buf (rb', lw')).1 <> []) as Hgrow.
  { intros x rb' lw' Hx E.
    pose proof (loop_removal_grows strip buf rb' lw' x Hx) as Hin.
    rewrite E in Hin. by apply elem_of_nil in Hin. }
  destruct (spacing_step_cases strip rb lw seg)
    as [[Hw E] | [(Hw & -> & Hn & E) | [(Hw & He & Hx & E) | (Hw & He & E)]]];
    rewrite E in *; fold (is_whitespace seg) in Hw; rewrite Hw.
  - rewrite (IH _ _ Hrb). by rewrite <- app_assoc.
  - exfalso. apply (Hgrow seg (rb ++ [seg]) lw); [|done].
    apply elem_of_app. right. left.
  - destruct lw as [|w lw].
    + by rewrite (IH _ _ Hrb).
    + exfalso. apply (Hgrow w (rb ++ w :: lw) []); [|done].
      apply elem_of_app. right. left.
  - by rewrite (IH _ _ Hrb).
Qed.

(** X14: with [strip_newlines] on, a leaf of newline type that is not of
    whitespace type as well is not in the buffer that [_process_spacing]
    returns. *)
Theorem process_spacing_strips_newlines
  (buf : list RawSegment) (st st' : State) out last_whitespace fixes s :
  _process_spacing buf true st = Ok ((out, last_whitespace, fixes), st') ->
  is_type s ["newline"] = true ->
  is_type s ["whitespace"] = false ->
  s ∉ out.
Proof.
  rewrite process_spacing_run. intros [= <- _ _ _] Hn Hw Hs.
  unfold pruned in Hs. apply elem_of_List_filter in Hs as [Hs Hk].
  unfold kept in Hk. apply negb_true_iff in Hk.
  assert (py_in s (removals true buf) = true) as Hp; [|congruence].
  apply py_in_elem. unfold removals, retained, loop_state.
  pose proof (loop_strips true buf [] [] s Hs Hw eq_refl Hn) as Hin.
  destruct (_ <=? _)%nat; [|done]. apply elem_of_app. by left.
Qed.

(** X15: the pruned buffer that [_process_spacing] returns holds at most
    one leaf of whitespace type; such a leaf is the first of the returned
    last whitespace, and no leaf of newline or end of file type comes
    after it. *)
Theorem process_spacing_leaves_one_whitespace
  (buf : list RawSegment) (strip : bool) (st st' : State)
  out last_whitespace fixes :
  _process_spacing buf strip st = Ok ((out, last_whitespace, fixes), st') ->
  (length (List.filter is_whitespace out) <= 1)%nat
  /\ (forall s, s ∈ out -> is_whitespace s = true ->
                head last_whitespace = Some s)
  /\ (forall l1 w l2, out = l1 ++ w :: l2 -> is_whitespace w = true ->
                      Forall (fun s => is_line_end s = false) l2).
Proof.
  rewrite process_spacing_run. intros [= <- <- _ _].
  destruct (pruned_stable strip buf) as [Hrb Hlen].
  pose proof (loop_nothing_removed strip (pruned strip buf) [] [] Hrb) as Hlw.
  cbn [app] in Hlw. fold (loop_state strip (pruned strip buf)) in Hlw.
  fold (retained strip (pruned strip buf)) in Hlw.
  assert (length (List.filter is_whitespace (pruned strip buf)) <= 1)%nat
    as Hone by (by rewrite <- Hlw).
  split; [done|]. split.
  - intros s Hs Hw. unfold pruned in Hs.
    apply elem_of_List_filter in Hs as [Hs Hk].
    unfold kept in Hk. apply negb_true_iff in Hk.
    assert (s ∉ removals strip buf) as Hnot.
    { intros Hin. apply py_in_elem in Hin. congruence. }
    destruct (loop_keeps_track strip buf [] [] s) as [Hin|Hin]; [by right| |].
    + exfalso. apply Hnot. unfold removals.
      destruct (_ <=? _)%nat; [|done]. apply elem_of_app. by left.
    + fold (loop_state strip buf) in Hin. fold (retained strip buf) in Hin.
      destruct (retained strip buf) as [|w1 tl] eqn:Hret;
        [by apply elem_of_nil in Hin|].
      apply elem_of_cons in Hin as [->|Hin]; [done|]. exfalso.
      apply Hnot. unfold removals. rewrite Hret.
      destruct tl as [|w2 tl]; [by apply elem_of_nil in Hin|].
      simpl. apply elem_of_app. by right.
  - intros l1 w l2 Hout Hw. apply Forall_forall. intros e He.
    destruct (is_line_end e) eqn:Hle; [|done]. exfalso.
    rewrite Hout in Hone, Hrb.
    rewrite List.filter_app in Hone. cbn [List.filter] in Hone.
    rewrite Hw, length_app in Hone. cbn [length] in Hone.
    assert (is_whitespace e = false) as Hew.
    { destruct (is_whitespace e) eqn:Hew; [|done]. exfalso.
      assert (e ∈ List.filter is_whitespace l2) as Hin
        by (by apply elem_of_List_filter).
      destruct (List.filter is_whitespace l2);
        [by apply elem_of_nil in Hin|simpl in Hone; lia]. }
    apply list_elem_of_split in He as (l2a & l2b & ->).
    unfold loop_state in Hrb.
    replace (l1 ++ w :: l2a ++ e :: l2b)
      with ((l1 ++ w :: l2a) ++ e :: l2b) in Hrb
      by (by rewrite <- app_assoc).
    rewrite fold_left_app in Hrb. cbn [fold_left] in Hrb.
    destruct (fold_left (spacing_step strip) (l1 ++ w :: l2a) ([], []))
      as [rb1 lw1] eqn:Hmid.
    assert (forall x rb' lw', x ∈ rb' ->
              (fold_left (spacing_step strip) l2b (rb', lw')).1 <> [])
      as Hgrow.
    { intros x rb' lw' Hx E.
      pose proof (loop_removal_grows strip l2b rb' lw' x Hx) as Hin.
      rewrite E in Hin. by apply elem_of_nil in Hin. }
    assert (w ∈ rb1 \/ w ∈ lw1) as Hwin.
    { pose proof (loop_keeps_track strip (l1 ++ w :: l2a) [] [] w) as Ht.
      rewrite Hmid in Ht. apply Ht. right. split; [|done].
      apply elem_of_app. right. left. }
    destruct (spacing_step_cases strip rb1 lw1 e)
      as [[Hx _] | [(_ & _ & _ & E) | [(_ & _ & _ & E) | (_ & Hx & _)]]].
    + unfold is_whitespace in Hew. congruence.
    + rewrite E in Hrb. apply (Hgrow e (rb1 ++ [e]) lw1); [|done].
      apply elem_of_app. right. left.
    + rewrite E in Hrb. apply (Hgrow w (rb1 ++ lw1) []); [|done].
      apply elem_of_app. by destruct Hwin; [left|right].
    + unfold is_line_end in Hle. congruence.
Qed.

(** ** Respacing: the cases that change nothing more *)

Lemma py_index_elem (l : list RawSegment) x :
  x ∈ l -> exists i, py_index l x = Ok i.
Proof.
  induction l as [|e l IH]; intros Hx; [by apply elem_of_nil in Hx|].
  simpl. destruct (py_eq e x) eqn:E; [by exists 0%nat|].
  apply elem_of_cons in Hx as [->|Hx]; [by rewrite py_eq_refl in E|].
  destruct (IH Hx) as [i ->]. by exists (S i).
Qed.

Lemma retained_without_whitespace strip buf :
  existsb is_whitespace buf = false -> retained strip buf = [].
Proof.
  intros Hw.
  destruct (removals_invariant strip buf (fun s => s ∈ buf)) as [_ H];
    [by apply Forall_forall|].
  destruct (retained strip buf) as [|w l]; [done|]. exfalso.
  apply Forall_cons in H as [[Hww Hwb] _].
  pose proof (existsb_false_elem _ _ Hw w Hwb) as Hf.
  unfold is_whitespace in Hf. congruence.
Qed.

(** X16: a point of distinct leaves without a line end after pruning,
    under any on a side: respace returns the pruned buffer and the fixes
    of the pruning, and nothing else. *)
Theorem respace_any_only_prunes
  self prev_block next_block root fixes strip st pre post strip'
  out last_whitespace new_fixes st1 :
  _determine_constraints prev_block next_block strip = Ok (pre, post, strip') ->
  "any" ∈ [pre; post] ->
  distinct_leaves (point_segments self) = true ->
  _process_spacing (point_segments self) strip' st
  = Ok ((out, last_whitespace, new_fixes), st1) ->
  existsb is_line_end out = false ->
  respace_point self prev_block next_block root fixes strip st
  = Ok ((fixes ++ new_fixes, mkReflowPoint out), st1).
Proof.
  intros Hc Hany Hd Hp Hno.
  unfold respace_point, bind at 1 2, lift. rewrite Hc, Hp.
  rewrite process_spacing_run in Hp. injection Hp as <- <- <- <-.
  rewrite Hno.
  destruct (existsb is_whitespace (point_segments self)) eqn:Hws.
  - destruct (pruned_inline_whitespace strip' _ Hd Hws Hno)
      as (w & rest & _ & -> & _ & Hwin & _).
    destruct (py_index_elem _ _ Hwin) as [i Hi].
    unfold _handle_respace__inline_with_space, bind, lift.
    cbn [py_first]. rewrite Hi, (bool_decide_eq_true_2 _ Hany).
    unfold ret. by rewrite app_nil_r.
  - rewrite (retained_without_whitespace _ _ Hws).
    unfold _handle_respace__inline_without_space, bind.
    rewrite (bool_decide_eq_true_2 ("any" ∈ [pre; post]) Hany), orb_true_r.
    unfold ret. by rewrite app_nil_r.
Qed.

(** X17: a point without whitespace and without a line end after pruning,
    under touch or any on a side: nothing is inserted; respace returns the
    pruned buffer and the fixes of the pruning. *)
Theorem respace_touch_inserts_nothing
  self prev_block next_block root fixes strip st pre post strip'
  out last_whitespace new_fixes st1 :
  _determine_constraints prev_block next_block strip = Ok (pre, post, strip') ->
  "touch" ∈ [pre; post] \/ "any" ∈ [pre; post] ->
  existsb is_whitespace (point_segments self) = false ->
  _process_spacing (point_segments self) strip' st
  = Ok ((out, last_whitespace, new_fixes), st1) ->
  existsb is_line_end out = false ->
  respace_point self prev_block next_block root fixes strip st
  = Ok ((fixes ++ new_fixes, mkReflowPoint out), st1).
Proof.
  intros Hc Hta Hws Hp Hno.
  unfold respace_point, bind at 1 2, lift. rewrite Hc, Hp.
  rewrite process_spacing_run in Hp. injection Hp as <- <- <- <-.
  rewrite Hno, (retained_without_whitespace _ _ Hws).
  unfold _handle_respace__inline_without_space, bind.
  assert (bool_decide ("touch" ∈ [pre; post])
          || bool_decide ("any" ∈ [pre; post]) = true) as ->.
  { destruct Hta as [H|H]; rewrite (bool_decide_eq_true_2 _ H);
      [done|by rewrite orb_true_r]. }
  unfold ret. by rewrite app_nil_r.
Qed.

(** ** Respacing the whitespace between single sides *)

Lemma single_has_no_any : bool_decide ("any" ∈ ["single"; "single"]) = false.
Proof. reflexivity. Qed.

Lemma single_has_no_touch :
  bool_decide ("touch" ∈ ["single"; "single"]) = false.
Proof. reflexivity. Qed.

Lemma single_is_not_align : startswith "single" "align" = false.
Proof. reflexivity. Qed.

(** X18: a point of distinct leaves with whitespace and no line end after
    pruning, under single on both sides: the retained whitespace stays as
    it is when its text is one space; otherwise its edit to one space
    takes its place in the buffer and one replace fix, anchored on it and
    holding the edit, is added after the fixes of the pruning. *)
Theorem respace_single_whitespace
  self prev_block next_block root fixes strip st strip'
  out last_whitespace new_fixes st1 :
  _determine_constraints prev_block next_block strip
  = Ok ("single", "single", strip') ->
  distinct_leaves (point_segments self) = true ->
  existsb is_whitespace (point_segments self) = true ->
  _process_spacing (point_segments self) strip' st
  = Ok ((out, last_whitespace, new_fixes), st1) ->
  existsb is_line_end out = false ->
  exists w i,
    head last_whitespace = Some w /\ out !! i = Some w
    /\ (raw w = " " ->
        respace_point self prev_block next_block root fixes strip st
        = Ok ((fixes ++ new_fixes, mkReflowPoint out), st1))
    /\ (raw w <> " " ->
        respace_point self prev_block next_block root fixes strip st
        = Ok ((fixes ++ new_fixes ++ [length (fix_store st1)],
               mkReflowPoint
                 (<[i := segment_edit (uuid_source st1) w " "]> out)),
              mkState
                (fix_store st1
                 ++ [mkLintFix "replace" w
                       (Some [segment_edit (uuid_source st1) w " "])])
                (uuid_source st1 + 1))).
Proof.
  intros Hc Hd Hws Hp Hno. pose proof Hp as Hp0.
  rewrite process_spacing_run in Hp. injection Hp as <- <- <- <-.
  destruct (pruned_inline_whitespace strip' _ Hd Hws Hno)
    as (w & rest & _ & Hret & _ & Hwin & _).
  destruct (distinct_leaves_spec _ Hd) as [Hnd Heq].
  destruct (py_index_distinct (pruned strip' (point_segments self)) w)
    as (i & Hi & Hlook & _); [| |done|].
  { intros a b Ha Hb. unfold pruned in Ha, Hb.
    apply elem_of_List_filter in Ha as [Ha _].
    apply elem_of_List_filter in Hb as [Hb _]. by apply Heq. }
  { by apply filter_NoDup. }
  exists w, i. rewrite Hret. split; [done|]. split; [done|].
  rewrite Hret in Hp0.
  split; intros Hraw.
  - unfold respace_point, bind at 1 2, lift. rewrite Hc, Hp0, Hno.
    unfold _handle_respace__inline_with_space, bind, lift.
    cbn [py_first]. rewrite Hi.
    rewrite single_has_no_any, single_has_no_touch, single_is_not_align.
    rewrite single_and_single, orb_true_r. unfold ret. cbn beta iota.
    destruct (decide (raw w = " ")); [|done].
    by rewrite app_nil_r.
  - unfold respace_point, bind at 1 2, lift. rewrite Hc, Hp0, Hno.
    unfold _handle_respace__inline_with_space, bind, lift.
    cbn [py_first]. rewrite Hi.
    rewrite single_has_no_any, single_has_no_touch, single_is_not_align.
    rewrite single_and_single, orb_true_r. unfold ret. cbn beta iota.
    destruct (decide (raw w = " ")); [done|].
    reflexivity.
Qed.

(** X19: constraints that the two inline handlers do not know make both
    raise NotImplementedError: with whitespace, when no side is any or
    touch, the sides are not both single, and there is no alignment
    against a next block; without whitespace, when no side is touch or
    any and the sides are not both single. *)
Theorem inline_handlers_unexpected_constraints
  (pre post : string) (prev_block next_block : option ReflowBlock)
  (root : BaseSegment) (buffer last_whitespace : list RawSegment)
  (existing_fixes : list nat) (st : State) w i :
  "any" ∉ [pre; post] ->
  "touch" ∉ [pre; post] ->
  ~ (pre = "single" /\ post = "single") ->
  (head last_whitespace = Some w -> py_index buffer w = Ok i ->
   startswith post "align" = false \/ next_block = None ->
   _handle_respace__inline_with_space pre post next_block root buffer
     last_whitespace st
   = Raise NotImplementedError)
  /\ _handle_respace__inline_without_space pre post prev_block next_block
       buffer existing_fixes st
     = Raise NotImplementedError.
Proof.
  intros Hany Htouch Hsingle. split.
  - intros Hw Hi Halign.
    unfold _handle_respace__inline_with_space, bind, lift.
    destruct last_whitespace as [|w' l]; [done|]. injection Hw as ->.
    cbn [py_first]. rewrite Hi.
    rewrite (bool_decide_eq_false_2 _ Hany), (bool_decide_eq_false_2 _ Htouch).
    rewrite (bool_decide_eq_false_2 _ Hsingle), orb_false_r.
    assert ((if startswith post "align" then next_block else None) = None)
      as ->.
    { destruct Halign as [-> | ->]; [done|by destruct (startswith _ _)]. }
    by rewrite bool_decide_eq_false_2 by (by intros [? ?]).
  - unfold _handle_respace__inline_without_space.
    rewrite (bool_decide_eq_false_2 _ Hany), (bool_decide_eq_false_2 _ Htouch).
    by rewrite (bool_decide_eq_false_2 _ Hsingle).
Qed.

(** X20: under single on both sides, next to a pending insertion, when
    none of the fixes passed holds that leaf in its payload, the handler
    without whitespace raises ValueError. *)
Theorem without_space_insertion_not_found
  (prev_block next_block : option ReflowBlock) (buffer : list RawSegment)
  (existing_fixes : list nat) (st : State) existing_fix insertion :
  detect_existing_fix prev_block next_block
  = Ok (Some (existing_fix, insertion)) ->
  Forall (fun r => exists f, fix_store st !! r = Some f
                             /\ contains_insertion insertion f = false)
         existing_fixes ->
  _handle_respace__inline_without_space "single" "single" prev_block
    next_block buffer existing_fixes st
  = Raise ValueError.
Proof.
  intros Hdet Hall. unfold _handle_respace__inline_without_space.
  rewrite single_is_not_touch_or_any, single_and_single.
  unfold bind at 1 2 3, lift, fresh_uuid. rewrite Hdet.
  destruct existing_fixes as [|r fixes]; [done|].
  unfold bind. by rewrite find_existing_fix_none.
Qed.

(** ** Respacing a point that keeps a line end *)

Lemma py_index_position (l : list RawSegment) x j :
  distinct_leaves l = true -> l !! j = Some x -> py_index l x = Ok j.
Proof.
  intros Hd Hj. destruct (distinct_leaves_spec _ Hd) as [Hnd Heq].
  destruct (py_index_distinct l x Heq Hnd) as (i & Hi & Hl & _).
  { by eapply list_elem_of_lookup_2. }
  by rewrite (NoDup_lookup l i j x Hnd Hl Hj) in Hi.
Qed.

Lemma py_remove_distinct (l : list RawSegment) x :
  (forall a b, a ∈ l -> b ∈ l -> py_eq a b = true -> a = b) ->
  NoDup l ->
  x ∈ l ->
  exists l', py_remove l x = Ok l'
             /\ l' `sublist_of` l
             /\ forall s, s ∈ l' <-> s ∈ l /\ s <> x.
Proof.
  induction l as [|e l IH]; intros Heq Hnd Hx.
  { by apply elem_of_nil in Hx. }
  apply NoDup_cons in Hnd as [He Hnd]. simpl.
  destruct (py_eq e x) eqn:E.
  - assert (e = x) as -> by (apply Heq; [left|done|done]).
    exists l. split; [done|]. split; [by constructor|].
    intros s. split; [|by intros [[->|?]%elem_of_cons ?]].
    intros Hs. split; [by right|]. by intros ->.
  - apply elem_of_cons in Hx as [->|Hx]; [by rewrite py_eq_refl in E|].
    destruct IH as (l' & -> & Hsub & Hl'); [|done|done|].
    { intros a b Ha Hb. apply Heq; by right. }
    exists (e :: l'). split; [done|]. split; [by constructor|].
    intros s. rewrite !elem_of_cons, Hl'. split.
    + intros [->|[? ?]]; [|by auto]. split; [by left|]. by intros ->.
    + intros [[->|?] ?]; auto.
Qed.

Lemma retained_single_in_pruned strip buf w :
  distinct_leaves buf = true ->
  retained strip buf = [w] ->
  w ∈ pruned strip buf.
Proof.
  intros Hd Hret. destruct (distinct_leaves_spec _ Hd) as [Hnd Heq].
  destruct (removals_invariant strip buf (fun s => s ∈ buf)) as [Hrm Hrt];
    [by apply Forall_forall|].
  rewrite Hret in Hrt. apply Forall_singleton in Hrt as [_ Hwb].
  rewrite Forall_forall in Hrm.
  unfold pruned. apply elem_of_List_filter. split; [done|].
  unfold kept. apply negb_true_iff.
  destruct (py_in w (removals strip buf)) eqn:Hp; [|done]. exfalso.
  apply (py_in_distinct buf) in Hp; [|done| |done].
  2:{ intros e He. by destruct (Hrm e He). }
  pose proof (loop_NoDup strip buf [] [] Hnd) as Hl.
  fold (loop_state strip buf) in Hl. fold (retained strip buf) in Hl.
  unfold removals in Hp. rewrite Hret in Hp, Hl. simpl in Hp.
  apply NoDup_app in Hl as (_ & Hdisj & _).
  apply (Hdisj w Hp). left.
Qed.

(** X21: when a line end is left after pruning, the constraints play no
    part.  For a point of distinct leaves, respace returns the pruned
    buffer and the fixes of the pruning, and nothing else, when the
    retained whitespace is not one leaf, when it is the first leaf of the
    point, when the leaf before it is no newline, and when that newline
    does not end before the whitespace starts. *)
Theorem respace_line_end_only_prunes
  self prev_block next_block root fixes strip st pre post strip'
  out last_whitespace new_fixes st1 :
  _determine_constraints prev_block next_block strip = Ok (pre, post, strip') ->
  distinct_leaves (point_segments self) = true ->
  _process_spacing (point_segments self) strip' st
  = Ok ((out, last_whitespace, new_fixes), st1) ->
  existsb is_line_end out = true ->
  length last_whitespace <> 1%nat
  \/ (exists w, last_whitespace = [w] /\ point_segments self !! 0%nat = Some w)
  \/ (exists w k p,
        last_whitespace = [w]
        /\ point_segments self !! S k = Some w
        /\ point_segments self !! k = Some p
        /\ (is_type p ["newline"] = false
            \/ exists end_loc start_loc,
                get_end_loc p = Ok end_loc
                /\ get_start_loc w = Ok start_loc
                /\ loc_lt end_loc start_loc = false)) ->
  respace_point self prev_block next_block root fixes strip st
  = Ok ((fixes ++ new_fixes, mkReflowPoint out), st1).
Proof.
  intros Hc Hd Hp Hle Hcases.
  unfold respace_point, bind at 1 2, lift. rewrite Hc, Hp, Hle.
  destruct Hcases as [Hlen|[(w & -> & Hw)|(w & k & p & -> & Hw & Hk & Hgap)]].
  - by destruct last_whitespace as [|? [|? ?]].
  - unfold bind. by rewrite (py_index_position _ _ _ Hd Hw).
  - unfold bind. rewrite (py_index_position _ _ _ Hd Hw).
    unfold py_nth. rewrite Hk.
    destruct Hgap as [Hn|(e & s0 & He & Hs & Hlt)].
    + by rewrite Hn.
    + destruct (is_type p ["newline"]); [|done].
      rewrite He, Hs. unfold ret. by rewrite Hlt.
Qed.

(** X22: when a line end is left after pruning and the one retained
    whitespace of a point of distinct leaves comes right after a newline
    leaf that ends before the whitespace starts, the whitespace is taken
    out of the pruned buffer as well, and its deletion is added after the
    fixes of the pruning. *)
Theorem respace_line_end_deletes_gap_whitespace
  self prev_block next_block root fixes strip st pre post strip'
  out new_fixes st1 w k p end_loc start_loc :
  _determine_constraints prev_block next_block strip = Ok (pre, post, strip') ->
  distinct_leaves (point_segments self) = true ->
  _process_spacing (point_segments self) strip' st
  = Ok ((out, [w], new_fixes), st1) ->
  existsb is_line_end out = true ->
  point_segments self !! S k = Some w ->
  point_segments self !! k = Some p ->
  is_type p ["newline"] = true ->
  get_end_loc p = Ok end_loc ->
  get_start_loc w = Ok start_loc ->
  loc_lt end_loc start_loc = true ->
  exists out',
    respace_point self prev_block next_block root fixes strip st
    = Ok ((fixes ++ (new_fixes ++ [length (fix_store st1)]),
           mkReflowPoint out'),
          mkState (fix_store st1 ++ [LintFix_delete w]) (uuid_source st1))
    /\ out' `sublist_of` out
    /\ (forall s, s ∈ out' <-> s ∈ out /\ s <> w).
Proof.
  intros Hc Hd Hp Hle Hw Hk Hn He Hs Hlt. pose proof Hp as Hp0.
  rewrite process_spacing_run in Hp. injection Hp as <- Hret <- <-.
  destruct (distinct_leaves_spec _ Hd) as [Hnd Heq].
  destruct (py_remove_distinct (pruned strip' (point_segments self)) w)
    as (out' & Hrm & Hsub & Hout').
  { intros a b Ha Hb. unfold pruned in Ha, Hb.
    apply elem_of_List_filter in Ha as [Ha _].
    apply elem_of_List_filter in Hb as [Hb _]. by apply Heq. }
  { by apply filter_NoDup. }
  { by apply retained_single_in_pruned. }
  exists out'. split; [|done].
  unfold respace_point, bind at 1 2, lift. rewrite Hc, Hp0, Hle.
  unfold bind. rewrite (py_index_position _ _ _ Hd Hw).
  unfold py_nth. rewrite Hk, Hn, He, Hs. unfold ret. rewrite Hlt, Hrm.
  reflexivity.
Qed.

(** ** Alignment across requests *)

Lemma aligned_spacing_run
  root whitespace_seg next_seg segment_type within boundary parent npm wpm :
  last_match within (searched boundary (rev (path_to root (Raw next_seg))))
  = Some parent ->
  pos_marker next_seg = Some npm ->
  pos_marker whitespace_seg = Some wpm ->
  Forall (fun s => is_Some (seg_pos_marker s))
         (unblocked_siblings parent segment_type boundary) ->
  Forall (fun s => is_Some (pos_marker s)) (raw_segments parent) ->
  on_same_line (unblocked_siblings parent segment_type boundary) npm = false ->
  _determine_aligned_inline_spacing root whitespace_seg next_seg
    segment_type within boundary
  = Ok (spaces (1 + max_column
                      (recorded_columns
                         (raw_segments parent)
                         (unblocked_siblings parent segment_type boundary)
                         None)
                - working_line_pos wpm)).
Proof.
  intros Hlast Hn Hw Hsibs Hraws Hline.
  unfold _determine_aligned_inline_spacing.
  rewrite find_parent_last_match, Hlast.
  rewrite (any_same_line_run _ _ npm) by done. cbn [res_bind].
  rewrite Hline, scan_raw_segments_run by done. cbn [res_bind].
  by rewrite Hw.
Qed.

(** X23: two alignment requests that find the same scope, with all the
    position markers in place and no sibling on the line of their next
    leaf, get runs of spaces that end at one column, the column after the
    largest recorded end column, as far as their whitespace starts at or
    before that column. *)
Theorem aligned_requests_end_at_one_column
  root ws1 next1 ws2 next2 segment_type within boundary
  parent npm1 wpm1 npm2 wpm2 :
  last_match within (searched boundary (rev (path_to root (Raw next1))))
  = Some parent ->
  last_match within (searched boundary (rev (path_to root (Raw next2))))
  = Some parent ->
  pos_marker next1 = Some npm1 -> pos_marker ws1 = Some wpm1 ->
  pos_marker next2 = Some npm2 -> pos_marker ws2 = Some wpm2 ->
  Forall (fun s => is_Some (seg_pos_marker s))
         (unblocked_siblings parent segment_type boundary) ->
  Forall (fun s => is_Some (pos_marker s)) (raw_segments parent) ->
  on_same_line (unblocked_siblings parent segment_type boundary) npm1 = false ->
  on_same_line (unblocked_siblings parent segment_type boundary) npm2 = false ->
  let column :=
    1 + max_column
          (recorded_columns
             (raw_segments parent)
             (unblocked_siblings parent segment_type boundary) None) in
  working_line_pos wpm1 <= column ->
  working_line_pos wpm2 <= column ->
  exists run1 run2,
    _determine_aligned_inline_spacing root ws1 next1 segment_type within
      boundary = Ok run1
    /\ _determine_aligned_inline_spacing root ws2 next2 segment_type within
         boundary = Ok run2
    /\ working_line_pos wpm1 + Z.of_nat (String.length run1) = column
    /\ working_line_pos wpm2 + Z.of_nat (String.length run2) = column.
Proof.
  intros H1 H2 Hn1 Hw1 Hn2 Hw2 Hsibs Hraws Hl1 Hl2 column Hc1 Hc2.
  eexists _, _.
  split; [by apply (aligned_spacing_run _ _ _ _ _ _ parent npm1 wpm1)|].
  split; [by apply (aligned_spacing_run _ _ _ _ _ _ parent npm2 wpm2)|].
  rewrite !spaces_length. fold column. lia.
Qed.

(** X24: under an alignment constraint against a next block whose first
    leaf has no position, the handler with whitespace raises
    AttributeError. *)
Theorem with_space_align_pending_next
  (pre post : string) (nb : ReflowBlock) (root : BaseSegment)
  (buffer last_whitespace : list RawSegment) (st : State)
  w i seg_type next_seg :
  head last_whitespace = Some w ->
  py_index buffer w = Ok i ->
  "any" ∉ [pre; post] ->
  "touch" ∉ [pre; post] ->
  startswith post "align" = true ->
  split_colon post !! 1%nat = Some seg_type ->
  py_first (block_segments nb) = Ok next_seg ->
  pos_marker next_seg = None ->
  _handle_respace__inline_with_space pre post (Some nb) root buffer
    last_whitespace st
  = Raise AttributeError.
Proof.
  intros Hw Hi Hany Htouch Halign Hcfg Hnext Hpos.
  unfold _handle_respace__inline_with_space, bind, lift.
  destruct last_whitespace as [|w' l]; [done|]. injection Hw as ->.
  cbn [py_first]. rewrite Hi.
  rewrite (bool_decide_eq_false_2 _ Hany), (bool_decide_eq_false_2 _ Htouch).
  rewrite Halign. rewrite (bool_decide_eq_true_2 (is_Some (Some nb))) by eauto.
  cbn [orb]. unfold py_nth. rewrite Hcfg, Hnext, Hpos. reflexivity.
Qed.

(** X25: under an alignment constraint that names no segment type, the
    handler with whitespace raises IndexError when there is a next
    block. *)
Theorem with_space_align_without_type
  (pre post : string) (nb : ReflowBlock) (root : BaseSegment)
  (buffer last_whitespace : list RawSegment) (st : State) w i :
  head last_whitespace = Some w ->
  py_index buffer w = Ok i ->
  "any" ∉ [pre; post] ->
  "touch" ∉ [pre; post] ->
  startswith post "align" = true ->
  split_colon post !! 1%nat = None ->
  _handle_respace__inline_with_space pre post (Some nb) root buffer
    last_whitespace st
  = Raise IndexError.
Proof.
  intros Hw Hi Hany Htouch Halign Hcfg.
  unfold _handle_respace__inline_with_space, bind, lift.
  destruct last_whitespace as [|w' l]; [done|]. injection Hw as ->.
  cbn [py_first]. rewrite Hi.
  rewrite (bool_decide_eq_false_2 _ Hany), (bool_decide_eq_false_2 _ Htouch).
  rewrite Halign. rewrite (bool_decide_eq_true_2 (is_Some (Some nb))) by eauto.
  cbn [orb]. unfold py_nth. by rewrite Hcfg.
Qed.

(** X26: under an alignment constraint against a next block whose first
    leaf has a position, the handler with whitespace asks the resolver
    with the segment type, the scope and the boundary of the constraint,
    in that order after the colons.  An error of the resolver is the
    error of the handler; a run equal to the text of the whitespace
    changes nothing; any other run is edited into the whitespace, in its
    place in the buffer, with one replace fix. *)
Theorem with_space_align_applies
  (pre post : string) (nb : ReflowBlock) (root : BaseSegment)
  (buffer last_whitespace : list RawSegment) (st : State)
  w i seg_type next_seg :
  head last_whitespace = Some w ->
  py_index buffer w = Ok i ->
  "any" ∉ [pre; post] ->
  "touch" ∉ [pre; post] ->
  startswith post "align" = true ->
  split_colon post !! 1%nat = Some seg_type ->
  py_first (block_segments nb) = Ok next_seg ->
  is_Some (pos_marker next_seg) ->
  _handle_respace__inline_with_space pre post (Some nb) root buffer
    last_whitespace st
  = match _determine_aligned_inline_spacing
            root w next_seg seg_type
            (split_colon post !! 2%nat) (split_colon post !! 3%nat) with
    | Raise e => Raise e
    | Ok desired =>
        if decide (raw w = desired) then Ok ((buffer, []), st)
        else
          Ok ((<[i := segment_edit (uuid_source st) w desired]> buffer,
               [length (fix_store st)]),
              mkState
                (fix_store st
                 ++ [mkLintFix "replace" w
                       (Some [segment_edit (uuid_source st) w desired])])
                (uuid_source st + 1))
    end.
Proof.
  intros Hw Hi Hany Htouch Halign Hcfg Hnext [npm Hpos].
  unfold _handle_respace__inline_with_space, bind, lift.
  destruct last_whitespace as [|w' l]; [done|]. injection Hw as ->.
  cbn [py_first]. rewrite Hi.
  rewrite (bool_decide_eq_false_2 _ Hany), (bool_decide_eq_false_2 _ Htouch).
  rewrite Halign. rewrite (bool_decide_eq_true_2 (is_Some (Some nb))) by eauto.
  cbn [orb]. unfold py_nth. rewrite Hcfg, Hnext, Hpos. cbn [get_pos_marker].
  destruct (_determine_aligned_inline_spacing _ _ _ _ _ _) as [desired|e];
    [|done].
  unfold ret. by destruct (decide (raw w = desired)).
Qed.

End Reflow.

(** * The properties on the examples *)

#[local] Abbreviation respace_point_ex :=
  (respace_point leaf_eq tree_path_to tree_recursive_crawl tree_raw_segments
                 pos_working_loc_after leaf_get_start_loc leaf_get_end_loc
                 leaf_edit).

#[local] Abbreviation aligned_spacing_ex :=
  (_determine_aligned_inline_spacing tree_path_to tree_recursive_crawl
                                     tree_raw_segments pos_working_loc_after).

(** The keyword and the column of [select a] share the file, the statement
    and the select clause. *)
Lemma common_with_shared_prefix_witness :
  is_branch ex_file = true
  /\ exists common,
      common_with (from_raw_and_stack tree_hash kw_select stack_select)
                  (from_raw_and_stack tree_hash col_a stack_a) = Ok common
      /\ common <> []
      /\ Z.of_nat (length common)
         <= Z.min (stack_depth (from_raw_and_stack tree_hash kw_select stack_select))
                  (stack_depth (from_raw_and_stack tree_hash col_a stack_a))
      /\ common
         = shared_prefix
             (stack_hashes (from_raw_and_stack tree_hash kw_select stack_select))
             (stack_hashes (from_raw_and_stack tree_hash col_a stack_a)).
Proof.
  split; [reflexivity|].
  apply (common_with_shared_prefix tree_hash ex_file).
  - reflexivity.
  - apply (bool_decide_unpack _). vm_compute. exact I.
  - apply list_elem_of_lookup. exists 0%nat. reflexivity.
  - apply list_elem_of_lookup. exists 2%nat. reflexivity.
Defined.

Lemma common_with_symmetric_witness :
  is_branch ex_file = true
  /\ exists common_ab common_ba,
      common_with (from_raw_and_stack tree_hash kw_select stack_select)
                  (from_raw_and_stack tree_hash col_a stack_a) = Ok common_ab
      /\ common_with (from_raw_and_stack tree_hash col_a stack_a)
                     (from_raw_and_stack tree_hash kw_select stack_select)
         = Ok common_ba
      /\ (list_to_set common_ab : gset Z) = list_to_set common_ba.
Proof.
  split; [reflexivity|].
  apply (common_with_symmetric tree_hash ex_file).
  - reflexivity.
  - apply (bool_decide_unpack _). vm_compute. exact I.
  - apply list_elem_of_lookup. exists 0%nat. reflexivity.
  - apply list_elem_of_lookup. exists 2%nat. reflexivity.
Defined.

(** A stack of the file alone and a stack of the column reference alone
    share nothing. *)
Lemma common_with_no_common_ancestor_witness :
  stack_hash_set (from_raw_and_stack tree_hash kw_select [mkPathStep ex_file 0 1])
  ∩ stack_hash_set (from_raw_and_stack tree_hash col_a [mkPathStep ex_reference 0 1]) = ∅
  /\ common_with (from_raw_and_stack tree_hash kw_select [mkPathStep ex_file 0 1])
                 (from_raw_and_stack tree_hash col_a [mkPathStep ex_reference 0 1])
     = Raise AssertionError.
Proof.
  assert (stack_hash_set (from_raw_and_stack tree_hash kw_select [mkPathStep ex_file 0 1])
          ∩ stack_hash_set (from_raw_and_stack tree_hash col_a [mkPathStep ex_reference 0 1]) = ∅)
    as Hempty by (vm_compute; reflexivity).
  split; [exact Hempty|].
  apply (common_with_no_common_ancestor
           (from_raw_and_stack tree_hash kw_select [mkPathStep ex_file 0 1])
           (from_raw_and_stack tree_hash col_a [mkPathStep ex_reference 0 1])).
  - split; reflexivity.
  - split; reflexivity.
  - exact Hempty.
Defined.

(** Under an inline override on the select clause, single becomes touch,
    any stays and the newlines are stripped. *)
Lemma determine_constraints_spec_witness :
  exists pre post strip,
    _determine_constraints
      (Some (block_select "single" {[tree_hash ex_clause := "inline"]}))
      (Some (block_a "any")) false
    = Ok (pre, post, strip)
    /\ pre = "touch" /\ post = "any" /\ strip = true.
Proof.
  destruct (determine_constraints_spec
              tree_hash
              (Some (block_select "single" {[tree_hash ex_clause := "inline"]}))
              (Some (block_a "any")) false) as (_ & H & _).
  destruct (H (block_select "single" {[tree_hash ex_clause := "inline"]})
              (block_a "any") ex_file kw_select stack_select col_a stack_a
              eq_refl eq_refl)
    as (ancestor & _ & Huniq & _ & H2).
  - reflexivity.
  - apply (bool_decide_unpack _). vm_compute. exact I.
  - apply list_elem_of_lookup. exists 0%nat. reflexivity.
  - apply list_elem_of_lookup. exists 2%nat. reflexivity.
  - reflexivity.
  - reflexivity.
  - assert (tree_hash ex_clause = ancestor) as <-.
    { apply Huniq. exists 2%nat. split; [reflexivity|]. split.
      - apply list_elem_of_lookup. exists 2%nat. reflexivity.
      - intros j x Hj Hx. exfalso.
        do 3 (destruct j as [|j]; [lia|]). discriminate Hx. }
    destruct (H2 "inline") as (pre & post & strip & E & _ & Hpre & Hpost & _ & Hs & _).
    + vm_compute. reflexivity.
    + right. reflexivity.
    + exists pre, post, strip. split; [exact E|]. split; [|split].
      * apply Hpre. vm_compute. discriminate.
      * apply Hpost. reflexivity.
      * apply Hs. reflexivity.
Defined.


(** A newline and two spaces before a block that must touch: both go. *)
Lemma respace_strip_newline_touch_witness :
  respace_point_ex (mkReflowPoint [nl_leaf; ws_two])
                   (Some (block_select "single" ∅)) (Some (block_a "touch"))
                   ex_file [] true empty_state
  = Ok (([0%nat; 1%nat], mkReflowPoint []),
        mkState [LintFix_delete nl_leaf; LintFix_delete ws_two] 100).
Proof.
  apply (respace_strip_newline_touch
           leaf_eq tree_path_to tree_recursive_crawl tree_raw_segments
           pos_working_loc_after leaf_get_start_loc leaf_get_end_loc leaf_edit
           (mkReflowPoint [nl_leaf; ws_two])
           (Some (block_select "single" ∅)) (Some (block_a "touch"))
           ex_file [] empty_state nl_leaf ws_two "single" "touch" true).
  - reflexivity.
  - reflexivity.
  - reflexivity.
  - reflexivity.
  - reflexivity.
  - reflexivity.
  - vm_compute. reflexivity.
  - apply (bool_decide_unpack _). vm_compute. exact I.
  - apply (bool_decide_unpack _). vm_compute. exact I.
Defined.

(** C8 as stated fails without blocks, where both constraints are single:
    the newline is deleted, and the two spaces are replaced by one space,
    which stays in the returned point. *)
Lemma respace_strip_newline_single_counterexample :
  exists fixes point st',
    respace_point_ex (mkReflowPoint [nl_leaf; ws_two]) None None
                     ex_file [] true empty_state
    = Ok ((fixes, point), st')
    /\ point_segments point = [leaf_edit 100 ws_two " "]
    /\ point_segments point <> []
    /\ fix_store st'
       = [LintFix_delete nl_leaf;
          mkLintFix "replace" ws_two (Some [leaf_edit 100 ws_two " "])].
Proof.
  eexists _, _, _. split; [vm_compute; reflexivity|].
  split; [reflexivity|]. split; [discriminate|reflexivity].
Defined.

(** Between [select] and [a] a space is created after [select]; after a
    block that ends on the pending leaf the space joins the payload of the
    fix that holds that leaf. *)
Lemma respace_single_inserts_whitespace_witness :
  respace_point_ex (mkReflowPoint [])
                   (Some (block_select "single" ∅)) (Some (block_a "single"))
                   ex_file [] false empty_state
  = Ok (([0%nat], mkReflowPoint [WhitespaceSegment 100]),
        mkState [mkLintFix "create_after" kw_select
                           (Some [WhitespaceSegment 101])] 102)
  /\ respace_point_ex (mkReflowPoint [])
                      (Some block_pending) (Some (block_a "single"))
                      ex_file [0%nat] false (mkState [pending_fix] 100)
     = Ok (([0%nat], mkReflowPoint [WhitespaceSegment 100]),
           mkState [mkLintFix "create_after" kw_select
                              (Some [pending_leaf; WhitespaceSegment 101])]
                   102).
Proof.
  split.
  - pose proof (respace_single_inserts_whitespace
                  leaf_eq tree_path_to tree_recursive_crawl tree_raw_segments
                  pos_working_loc_after leaf_get_start_loc leaf_get_end_loc
                  leaf_edit (mkReflowPoint [])
                  (Some (block_select "single" ∅)) (Some (block_a "single"))
                  ex_file [] false empty_state false) as H.
    cbv zeta in H. destruct H as (_ & Hcreate & _ & _).
    + vm_compute. reflexivity.
    + reflexivity.
    + reflexivity.
    + destruct Hcreate as [Hafter _]; [reflexivity|].
      apply (Hafter (block_select "single" ∅) kw_select); reflexivity.
  - pose proof (respace_single_inserts_whitespace
                  leaf_eq tree_path_to tree_recursive_crawl tree_raw_segments
                  pos_working_loc_after leaf_get_start_loc leaf_get_end_loc
                  leaf_edit (mkReflowPoint [])
                  (Some block_pending) (Some (block_a "single"))
                  ex_file [0%nat] false (mkState [pending_fix] 100) false)
      as H.
    cbv zeta in H. destruct H as (_ & _ & Hmerge & _).
    + vm_compute. reflexivity.
    + reflexivity.
    + reflexivity.
    + destruct (Hmerge "after" pending_leaf 0%nat 0%nat pending_fix)
        as (payload & Hp & E).
      * reflexivity.
      * reflexivity.
      * reflexivity.
      * reflexivity.
      * intros j r' Hj. lia.
      * injection Hp as <-. exact E.
Defined.

(** C1 as stated fails after a block that ends on the pending leaf when
    no fix is passed: the call raises ValueError, and neither creates a
    fix nor extends one.  It fails when the fixes passed hold a creation
    after [select] already and [select] has its position: a second
    creation after [select] is added.  It fails too for a point without a
    block on either side: the buffer gets its space and no fix is made
    for it. *)
Lemma respace_single_counterexample :
  _determine_constraints (Some block_pending) (Some (block_a "single")) false
  = Ok ("single", "single", false)
  /\ respace_point_ex (mkReflowPoint [])
                      (Some block_pending) (Some (block_a "single"))
                      ex_file [] false empty_state
     = Raise ValueError
  /\ _determine_constraints (Some (block_select "single" ∅))
                            (Some (block_a "single")) false
     = Ok ("single", "single", false)
  /\ respace_point_ex (mkReflowPoint [])
                      (Some (block_select "single" ∅)) (Some (block_a "single"))
                      ex_file [0%nat] false (mkState [pending_fix] 100)
     = Ok (([0%nat; 1%nat], mkReflowPoint [WhitespaceSegment 100]),
           mkState [mkLintFix "create_after" kw_select (Some [pending_leaf]);
                    mkLintFix "create_after" kw_select
                              (Some [WhitespaceSegment 101])]
                   102)
  /\ _determine_constraints None None false = Ok ("single", "single", false)
  /\ exists point st',
      respace_point_ex (mkReflowPoint []) None None ex_file [] false
                       empty_state
      = Ok (([], point), st')
      /\ point_segments point = [WhitespaceSegment 100]
      /\ fix_store st' = [].
Proof.
  split; [vm_compute; reflexivity|]. split; [vm_compute; reflexivity|].
  split; [vm_compute; reflexivity|]. split; [vm_compute; reflexivity|].
  split; [reflexivity|].
  eexists _, _. split; [vm_compute; reflexivity|]. split; reflexivity.
Defined.

(** On two lines the first alias is moved to the column of the second:
    four spaces instead of one. *)
Lemma aligned_inline_spacing_spec_witness :
  aligned_spacing_ex two_file two_ws1 two_x "alias_expression"
                     (Some "select_clause") None
  = Ok "    ".
Proof.
  pose proof (aligned_inline_spacing_spec
                tree_path_to tree_recursive_crawl tree_raw_segments
                pos_working_loc_after two_file two_ws1 two_x
                "alias_expression" (Some "select_clause") None) as H.
  cbv zeta in H. destruct H as [_ H].
  destruct (H two_clause (mkPosMarker 1 3) (mkPosMarker 1 2)) as [E _].
  - reflexivity.
  - reflexivity.
  - reflexivity.
  - repeat constructor; by eexists.
  - repeat constructor; by eexists.
  - rewrite E. reflexivity.
Defined.

(** C7 as stated fails when a sibling is on the line of the next leaf:
    the select clause is found, the run of the formula has seven spaces,
    and the resolver returns one space. *)
Lemma aligned_spacing_same_line_counterexample :
  last_match (Some "select_clause")
             (searched None (rev (tree_path_to one_file (Raw one_x))))
  = Some one_clause
  /\ aligned_spacing_ex one_file one_ws1 one_x "alias_expression"
                        (Some "select_clause") None
     = Ok " "
  /\ 1 + max_column
           (recorded_columns
              pos_working_loc_after (tree_raw_segments one_clause)
              (unblocked_siblings tree_path_to tree_recursive_crawl
                                  one_clause "alias_expression" None)
              None)
     - 10 = 7
  /\ " " <> spaces 7.
Proof.
  split; [reflexivity|]. split; [reflexivity|]. split; [reflexivity|].
  discriminate.
Defined.




(** ** The further properties on the examples *)

#[local] Abbreviation with_space_ex :=
  (_handle_respace__inline_with_space
     leaf_eq tree_path_to tree_recursive_crawl tree_raw_segments
     pos_working_loc_after leaf_edit).

(** The depth info of [a] without its column reference. *)
Lemma trim_well_formed_witness :
  well_formed (trim info_a 1)
  /\ stack_depth (trim info_a 1) = stack_depth info_a - 1
  /\ stack_hashes (trim info_a 1)
     = take (Z.to_nat (stack_depth info_a - 1)) (stack_hashes info_a)
  /\ NoDup (stack_hashes (trim info_a 1)).
Proof.
  apply (trim_well_formed info_a 1).
  - split; split; reflexivity.
  - apply (bool_decide_unpack _). vm_compute. exact I.
  - vm_compute. split; discriminate.
Defined.

(** Five levels off a stack of four. *)
Lemma trim_beyond_depth_witness :
  stack_hashes (trim info_a 5) = []
  /\ stack_class_types (trim info_a 5) = []
  /\ stack_positions (trim info_a 5) = []
  /\ stack_depth (trim info_a 5) < 0.
Proof.
  apply (trim_beyond_depth info_a 5).
  - split; split; reflexivity.
  - reflexivity.
Defined.

Lemma trim_trim_witness :
  trim (trim info_a 1) 2 = trim info_a (1 + 2).
Proof.
  apply (trim_trim info_a 1 2).
  - split; split; reflexivity.
  - lia.
  - lia.
  - vm_compute. discriminate.
Defined.

Lemma common_with_trim_witness :
  common_with info_a (trim info_a 1) = Ok (stack_hashes (trim info_a 1))
  /\ common_with (trim info_a 1) info_a = Ok (stack_hashes (trim info_a 1)).
Proof.
  apply (common_with_trim info_a 1).
  - split; split; reflexivity.
  - apply (bool_decide_unpack _). vm_compute. exact I.
  - vm_compute. split; [discriminate|reflexivity].
Defined.

(** The column [a] is found in the depth map of the file. *)
Lemma from_parent_lookup_witness :
  get_depth_info (from_parent tree_hash ex_file) col_a = inr info_a.
Proof.
  apply (from_parent_lookup tree_hash ex_file col_a stack_a).
  - apply (bool_decide_unpack _). vm_compute. exact I.
  - apply list_elem_of_lookup. exists 2%nat. reflexivity.
Defined.

(** The pending leaf is not in the depth map of the file. *)
Lemma from_parent_lookup_missing_witness :
  get_depth_info (from_parent tree_hash ex_file) pending_leaf
  = inl (KeyError 50).
Proof.
  apply (proj1 (from_parent_lookup_missing tree_hash ex_file pending_leaf)).
  apply (bool_decide_unpack _). vm_compute. exact I.
Defined.

Lemma from_raws_and_root_from_parent_witness :
  from_raws_and_root tree_hash tree_path_to
    (map fst (raw_segments_with_ancestors ex_file)) ex_file
  = from_parent tree_hash ex_file.
Proof.
  apply (from_raws_and_root_from_parent tree_hash tree_path_to ex_file).
  assert (Forall (fun x => tree_path_to ex_file (Raw x.1) = x.2)
                 (raw_segments_with_ancestors ex_file)) as H
    by (vm_compute; repeat constructor).
  intros r stack Hin.
  exact (proj1 (Forall_forall _ _) H (r, stack) Hin).
Defined.

(** A new whitespace leaf gets the depth info of [a] less one level. *)
Lemma copy_depth_info_spec_witness :
  exists m',
    copy_depth_info (from_parent tree_hash ex_file) col_a
                    (WhitespaceSegment 100) 1 = inr m'
    /\ get_depth_info m' (WhitespaceSegment 100) = inr (trim info_a 1)
    /\ (forall other, uuid other <> uuid (WhitespaceSegment 100) ->
                      get_depth_info m' other
                      = get_depth_info (from_parent tree_hash ex_file) other)
    /\ (uuid (WhitespaceSegment 100) <> uuid col_a ->
        copy_depth_info m' col_a (WhitespaceSegment 100) 1 = inr m').
Proof.
  apply (proj2 (copy_depth_info_spec (from_parent tree_hash ex_file)
                                     col_a (WhitespaceSegment 100) 1)).
  vm_compute. reflexivity.
Defined.

(** The block of [a] holds the inline override of the select clause. *)
Lemma from_config_overrides_witness :
  stack_spacing_configs (from_config ex_block_config [col_a] info_a)
  !! tree_hash ex_clause
  = within_of ex_block_config ["select_clause"].
Proof.
  apply (proj2 (from_config_overrides ex_block_config [col_a] info_a)
           ltac:(apply (bool_decide_unpack _); vm_compute; exact I)
           2%nat).
  - reflexivity.
  - reflexivity.
Defined.

Lemma from_config_common_override_witness :
  exists common parent,
    common_with
      (depth_info
         (from_config ex_block_config [kw_select]
            (from_raw_and_stack tree_hash kw_select stack_select)))
      (depth_info
         (from_config ex_block_config [col_a]
            (from_raw_and_stack tree_hash col_a stack_a)))
    = Ok common
    /\ last common = Some parent
    /\ stack_spacing_configs
         (from_config ex_block_config [kw_select]
            (from_raw_and_stack tree_hash kw_select stack_select))
       !! parent
       = stack_spacing_configs
           (from_config ex_block_config [col_a]
              (from_raw_and_stack tree_hash col_a stack_a))
         !! parent.
Proof.
  apply (from_config_common_override
           tree_hash ex_block_config ex_file kw_select stack_select
           col_a stack_a [kw_select] [col_a]).
  - reflexivity.
  - apply (bool_decide_unpack _). vm_compute. exact I.
  - apply list_elem_of_lookup. exists 0%nat. reflexivity.
  - apply list_elem_of_lookup. exists 2%nat. reflexivity.
Defined.

(** An align override on the select clause is not handled. *)
Lemma determine_constraints_unknown_override_witness :
  _determine_constraints
    (Some (block_select "single" {[tree_hash ex_clause := "align"]}))
    (Some (block_a "single")) false
  = Raise NotImplementedError.
Proof.
  apply (determine_constraints_unknown_override
           (block_select "single" {[tree_hash ex_clause := "align"]})
           (block_a "single") false
           (map tree_hash [ex_file; ex_statement; ex_clause])
           (tree_hash ex_clause) "align").
  - split; split; reflexivity.
  - vm_compute. reflexivity.
  - reflexivity.
  - vm_compute. reflexivity.
  - discriminate.
  - discriminate.
  - discriminate.
Defined.

Lemma determine_constraints_assertion_witness :
  _determine_constraints (Some block_file_only) (Some block_reference_only)
                         false
  = Raise AssertionError.
Proof.
  apply (proj2 (determine_constraints_assertion
                  (Some block_file_only) (Some block_reference_only) false)).
  exists block_file_only, block_reference_only.
  split; [reflexivity|]. split; [reflexivity|].
  vm_compute. reflexivity.
Defined.

(** Under an inline override, any stays and single turns into touch. *)
Lemma determine_constraints_bounds_witness :
  ("any" = default_pre
             (Some (block_select "any" {[tree_hash ex_clause := "inline"]}))
   \/ "any" = "touch")
  /\ ("touch" = default_post (Some (block_a "single")) \/ "touch" = "touch")
  /\ (default_pre
        (Some (block_select "any" {[tree_hash ex_clause := "inline"]}))
      = "any" -> "any" = "any")
  /\ (default_post (Some (block_a "single")) = "any" -> "touch" = "any")
  /\ (false = true -> true = true).
Proof.
  apply (determine_constraints_bounds
           (Some (block_select "any" {[tree_hash ex_clause := "inline"]}))
           (Some (block_a "single")) false "any" "touch" true).
  vm_compute. reflexivity.
Defined.

(** A newline before two spaces is stripped; the spaces stay. *)
Lemma process_spacing_strips_newlines_witness :
  _process_spacing leaf_eq [nl_leaf; ws_two] true empty_state
  = Ok (([ws_two], [ws_two], [0%nat]), mkState [LintFix_delete nl_leaf] 100)
  /\ nl_leaf ∉ [ws_two].
Proof.
  assert (_process_spacing leaf_eq [nl_leaf; ws_two] true empty_state
          = Ok (([ws_two], [ws_two], [0%nat]),
                mkState [LintFix_delete nl_leaf] 100)) as Hrun
    by (vm_compute; reflexivity).
  split; [exact Hrun|].
  apply (process_spacing_strips_newlines
           leaf_eq [nl_leaf; ws_two] empty_state
           (mkState [LintFix_delete nl_leaf] 100) [ws_two] [ws_two] [0%nat]
           nl_leaf Hrun).
  - reflexivity.
  - reflexivity.
Defined.

(** Of two whitespace leaves the first one stays. *)
Lemma process_spacing_leaves_one_whitespace_witness :
  (length (List.filter is_whitespace [ws_two]) <= 1)%nat
  /\ (forall s, s ∈ [ws_two] -> is_whitespace s = true ->
                head [ws_two; ws_three] = Some s)
  /\ (forall l1 w l2, [ws_two] = l1 ++ w :: l2 -> is_whitespace w = true ->
                      Forall (fun s => is_line_end s = false) l2).
Proof.
  apply (process_spacing_leaves_one_whitespace
           leaf_eq [ws_two; ws_three] false empty_state
           (mkState [LintFix_delete ws_three] 100) [ws_two]
           [ws_two; ws_three] [0%nat]).
  vm_compute. reflexivity.
Defined.

(** After a block that allows any spacing the two spaces stay. *)
Lemma respace_any_only_prunes_witness :
  respace_point_ex (mkReflowPoint [ws_two; ws_three])
                   (Some (block_select "any" ∅)) (Some (block_a "single"))
                   ex_file [] false empty_state
  = Ok (([] ++ [0%nat], mkReflowPoint [ws_two]),
        mkState [LintFix_delete ws_three] 100).
Proof.
  apply (respace_any_only_prunes
           leaf_eq tree_path_to tree_recursive_crawl tree_raw_segments
           pos_working_loc_after leaf_get_start_loc leaf_get_end_loc leaf_edit
           (mkReflowPoint [ws_two; ws_three])
           (Some (block_select "any" ∅)) (Some (block_a "single"))
           ex_file [] false empty_state "any" "single" false
           [ws_two] [ws_two; ws_three]).
  - vm_compute. reflexivity.
  - apply (bool_decide_unpack _). vm_compute. exact I.
  - reflexivity.
  - vm_compute. reflexivity.
  - reflexivity.
Defined.

(** A stripped newline between touching blocks leaves an empty point. *)
Lemma respace_touch_inserts_nothing_witness :
  respace_point_ex (mkReflowPoint [nl_leaf])
                   (Some (block_select "touch" ∅)) (Some (block_a "single"))
                   ex_file [] true empty_state
  = Ok (([] ++ [0%nat], mkReflowPoint []),
        mkState [LintFix_delete nl_leaf] 100).
Proof.
  apply (respace_touch_inserts_nothing
           leaf_eq tree_path_to tree_recursive_crawl tree_raw_segments
           pos_working_loc_after leaf_get_start_loc leaf_get_end_loc leaf_edit
           (mkReflowPoint [nl_leaf])
           (Some (block_select "touch" ∅)) (Some (block_a "single"))
           ex_file [] true empty_state "touch" "single" true
           [] []).
  - vm_compute. reflexivity.
  - left. apply (bool_decide_unpack _). vm_compute. exact I.
  - reflexivity.
  - vm_compute. reflexivity.
  - reflexivity.
Defined.

(** Two spaces between single sides are replaced by one. *)
Lemma respace_single_whitespace_witness :
  respace_point_ex (mkReflowPoint [ws_two]) None None ex_file [] false
                   empty_state
  = Ok (([0%nat], mkReflowPoint [leaf_edit 100 ws_two " "]),
        mkState [mkLintFix "replace" ws_two (Some [leaf_edit 100 ws_two " "])]
                101).
Proof.
  destruct (respace_single_whitespace
              leaf_eq tree_path_to tree_recursive_crawl tree_raw_segments
              pos_working_loc_after leaf_get_start_loc leaf_get_end_loc
              leaf_edit (mkReflowPoint [ws_two]) None None ex_file [] false
              empty_state false [ws_two] [ws_two] [] empty_state)
    as (w & i & Hw & Hi & _ & E).
  - reflexivity.
  - reflexivity.
  - reflexivity.
  - vm_compute. reflexivity.
  - reflexivity.
  - injection Hw as <-. destruct i as [|i]; [|destruct i; discriminate Hi].
    apply E. discriminate.
Defined.

(** An alignment before the point, with nothing to align after it. *)
Lemma inline_handlers_unexpected_constraints_witness :
  with_space_ex "align:alias_expression" "single" None ex_file
                [ws_select] [ws_select] empty_state
  = Raise NotImplementedError
  /\ _handle_respace__inline_without_space
       "align:alias_expression" "single" None None [] [] empty_state
     = Raise NotImplementedError.
Proof.
  destruct (inline_handlers_unexpected_constraints
              leaf_eq tree_path_to tree_recursive_crawl tree_raw_segments
              pos_working_loc_after leaf_edit
              "align:alias_expression" "single" None None ex_file
              [ws_select] [ws_select] [] empty_state ws_select 0%nat)
    as [Hwith Hwithout].
  - apply (bool_decide_unpack _). vm_compute. exact I.
  - apply (bool_decide_unpack _). vm_compute. exact I.
  - intros [E _]. discriminate E.
  - split; [|exact Hwithout].
    apply Hwith; [reflexivity|reflexivity|left; reflexivity].
Defined.

(** The fix passed does not hold the pending leaf. *)
Lemma without_space_insertion_not_found_witness :
  _handle_respace__inline_without_space
    "single" "single" (Some block_pending) (Some (block_a "single")) []
    [0%nat] (mkState [LintFix_delete ws_two] 100)
  = Raise ValueError.
Proof.
  apply (without_space_insertion_not_found
           (Some block_pending) (Some (block_a "single")) [] [0%nat]
           (mkState [LintFix_delete ws_two] 100) "after" pending_leaf).
  - reflexivity.
  - constructor; [|constructor].
    exists (LintFix_delete ws_two). split; reflexivity.
Defined.

(** Two spaces that start where the newline ends stay as they are. *)
Lemma respace_line_end_only_prunes_witness :
  respace_point_ex (mkReflowPoint [nl_leaf; ws_two]) None None ex_file []
                   false empty_state
  = Ok (([] ++ [], mkReflowPoint [nl_leaf; ws_two]), empty_state).
Proof.
  apply (respace_line_end_only_prunes
           leaf_eq tree_path_to tree_recursive_crawl tree_raw_segments
           pos_working_loc_after leaf_get_start_loc leaf_get_end_loc leaf_edit
           (mkReflowPoint [nl_leaf; ws_two]) None None ex_file [] false
           empty_state "single" "single" false
           [nl_leaf; ws_two] [ws_two] [] empty_state).
  - reflexivity.
  - reflexivity.
  - vm_compute. reflexivity.
  - reflexivity.
  - right. right. exists ws_two, 0%nat, nl_leaf.
    split; [reflexivity|]. split; [reflexivity|]. split; [reflexivity|].
    right. exists (2, 1), (2, 1).
    split; [reflexivity|]. split; reflexivity.
Defined.

(** A space that starts two columns after the end of the newline goes. *)
Lemma respace_line_end_deletes_gap_whitespace_witness :
  exists out',
    respace_point_ex (mkReflowPoint [nl_leaf; ws_three]) None None ex_file []
                     false empty_state
    = Ok (([] ++ ([] ++ [length (fix_store empty_state)]),
           mkReflowPoint out'),
          mkState (fix_store empty_state ++ [LintFix_delete ws_three])
                  (uuid_source empty_state))
    /\ out' `sublist_of` [nl_leaf; ws_three]
    /\ (forall s, s ∈ out' <-> s ∈ [nl_leaf; ws_three] /\ s <> ws_three).
Proof.
  apply (respace_line_end_deletes_gap_whitespace
           leaf_eq tree_path_to tree_recursive_crawl tree_raw_segments
           pos_working_loc_after leaf_get_start_loc leaf_get_end_loc leaf_edit
           (mkReflowPoint [nl_leaf; ws_three]) None None ex_file [] false
           empty_state "single" "single" false
           [nl_leaf; ws_three] [] empty_state ws_three 0%nat nl_leaf
           (2, 1) (2, 3)).
  - reflexivity.
  - reflexivity.
  - vm_compute. reflexivity.
  - reflexivity.
  - reflexivity.
  - reflexivity.
  - reflexivity.
  - reflexivity.
  - reflexivity.
  - reflexivity.
Defined.

(** On two lines both aliases are moved to column 6. *)
Lemma aligned_requests_end_at_one_column_witness :
  exists run1 run2,
    aligned_spacing_ex two_file two_ws1 two_x "alias_expression"
                       (Some "select_clause") None = Ok run1
    /\ aligned_spacing_ex two_file two_ws2 two_y "alias_expression"
                          (Some "select_clause") None = Ok run2
    /\ 2 + Z.of_nat (String.length run1) = 6
    /\ 5 + Z.of_nat (String.length run2) = 6.
Proof.
  apply (aligned_requests_end_at_one_column
           tree_path_to tree_recursive_crawl tree_raw_segments
           pos_working_loc_after two_file two_ws1 two_x two_ws2 two_y
           "alias_expression" (Some "select_clause") None two_clause
           (mkPosMarker 1 3) (mkPosMarker 1 2)
           (mkPosMarker 2 6) (mkPosMarker 2 5)).
  - reflexivity.
  - reflexivity.
  - reflexivity.
  - reflexivity.
  - reflexivity.
  - reflexivity.
  - repeat constructor; by eexists.
  - repeat constructor; by eexists.
  - reflexivity.
  - reflexivity.
  - vm_compute. discriminate.
  - vm_compute. discriminate.
Defined.

(** An alignment against a block that starts with the pending leaf. *)
Lemma with_space_align_pending_next_witness :
  with_space_ex "single" "align:alias_expression" (Some block_pending)
                ex_file [ws_select] [ws_select] empty_state
  = Raise AttributeError.
Proof.
  apply (with_space_align_pending_next
           leaf_eq tree_path_to tree_recursive_crawl tree_raw_segments
           pos_working_loc_after leaf_edit
           "single" "align:alias_expression" block_pending ex_file
           [ws_select] [ws_select] empty_state ws_select 0%nat
           "alias_expression" pending_leaf).
  - reflexivity.
  - reflexivity.
  - apply (bool_decide_unpack _). vm_compute. exact I.
  - apply (bool_decide_unpack _). vm_compute. exact I.
  - reflexivity.
  - reflexivity.
  - reflexivity.
  - reflexivity.
Defined.

(** The constraint [align] alone names no segment type. *)
Lemma with_space_align_without_type_witness :
  with_space_ex "single" "align" (Some (block_a "align")) ex_file
                [ws_select] [ws_select] empty_state
  = Raise IndexError.
Proof.
  apply (with_space_align_without_type
           leaf_eq tree_path_to tree_recursive_crawl tree_raw_segments
           pos_working_loc_after leaf_edit
           "single" "align" (block_a "align") ex_file
           [ws_select] [ws_select] empty_state ws_select 0%nat).
  - reflexivity.
  - reflexivity.
  - apply (bool_decide_unpack _). vm_compute. exact I.
  - apply (bool_decide_unpack _). vm_compute. exact I.
  - reflexivity.
  - reflexivity.
Defined.

(** The space before the first alias is edited into four spaces. *)
Lemma with_space_align_applies_witness :
  with_space_ex "single" "align:alias_expression:select_clause"
                (Some block_two_x) two_file [two_ws1] [two_ws1] empty_state
  = Ok (([leaf_edit 100 two_ws1 "    "], [0%nat]),
        mkState [mkLintFix "replace" two_ws1
                           (Some [leaf_edit 100 two_ws1 "    "])] 101).
Proof.
  rewrite (with_space_align_applies
             leaf_eq tree_path_to tree_recursive_crawl tree_raw_segments
             pos_working_loc_after leaf_edit
             "single" "align:alias_expression:select_clause" block_two_x
             two_file [two_ws1] [two_ws1] empty_state two_ws1 0%nat
             "alias_expression" two_x).
  - reflexivity.
  - reflexivity.
  - reflexivity.
  - apply (bool_decide_unpack _). vm_compute. exact I.
  - apply (bool_decide_unpack _). vm_compute. exact I.
  - reflexivity.
  - reflexivity.
  - reflexivity.
  - by eexists.
Defined.
